(** * JurisAI2 front-end: branding store, API client, input validation,
      upload / case-search / chat handlers and application start-up.

    The TypeScript sources are embedded shallowly.  JavaScript strings are
    sequences of UTF-16 code units, objects are finite maps from property
    names to values, React state is threaded explicitly, and calls into the
    browser (DOM writes, alerts, timers) are recorded in the order the code
    issues them. *)

From Stdlib Require Import ZArith NArith QArith Lia Ascii String.
From stdpp Require Import base option list strings gmap pretty.

Set Warnings "-register-all".

(* ================================================================== *)
(** ** JavaScript strings and values *)
(* ================================================================== *)

Module Js.

(** A JavaScript string is a list of UTF-16 code units. *)
Abbreviation jsstring := (list N).

(** The code unit of an ASCII character. *)
Definition code (a : ascii) : N := N_of_ascii a.

(** Code units of a literal written in this file (UTF-8 bytes): one, two
    and three byte sequences are decoded, which covers every literal of
    the sources. *)
Fixpoint decode (bs : list N) (pending : nat) (acc : N) : jsstring :=
  match bs with
  | [] => []
  | b :: rest =>
      match pending with
      | O =>
          if (b <? 128)%N then b :: decode rest 0 0%N
          else if (b <? 224)%N then decode rest 1 (N.land b 31)
          else decode rest 2 (N.land b 15)
      | S O => (N.lor (N.shiftl acc 6) (N.land b 63)) :: decode rest 0 0%N
      | S p => decode rest p (N.lor (N.shiftl acc 6) (N.land b 63))
      end
  end.

Definition js (s : string) : jsstring :=
  decode (code <$> String.list_ascii_of_string s) 0 0%N.

(** Values that occur in a branding record: strings, nested objects and
    [undefined].  A property that is absent reads as [undefined]. *)
Inductive value : Type :=
| VUndef
| VStr (s : jsstring)
| VObj (fields : gmap string value).

Abbreviation obj := (gmap string value).

(** [o.k] on an object. *)
Definition get (o : obj) (k : string) : value := default VUndef (o !! k).

(** [v.k] for an arbitrary value and a key that is neither an index, nor
    [length], nor inherited from a prototype (the branding keys are not):
    [None] is the TypeError raised when [v] is [undefined]. *)
Definition member (v : value) (k : string) : option value :=
  match v with
  | VUndef => None
  | VStr _ => Some VUndef
  | VObj m => Some (get m k)
  end.

(** String conversion, as performed by a template literal. *)
Definition ToString (v : value) : jsstring :=
  match v with
  | VUndef => js "undefined"
  | VStr s => s
  | VObj _ => js "[object Object]"
  end.

Definition is_string (v : value) : bool :=
  match v with VStr _ => true | _ => false end.

(** An object whose properties [keys] all hold strings. *)
Definition has_strings (keys : list string) (v : value) : bool :=
  match v with
  | VObj m => forallb (λ k, is_string (get m k)) keys
  | _ => false
  end.

(** How a call ends: normally, with a TypeError, or with the
    [QuotaExceededError] of a full storage area. *)
Inductive completion : Type :=
| Normal
| ThrowsTypeError
| ThrowsQuotaExceeded.

End Js.

Import Js.

(* ================================================================== *)
(** ** src/hooks/useBranding.ts *)
(* ================================================================== *)

Module Branding.

Definition scheme (primary secondary accent background surface text
                   textSecondary : string) : value :=
  VObj (<["primary" := VStr (js primary)]>
       (<["secondary" := VStr (js secondary)]>
       (<["accent" := VStr (js accent)]>
       (<["background" := VStr (js background)]>
       (<["surface" := VStr (js surface)]>
       (<["text" := VStr (js text)]>
       (<["textSecondary" := VStr (js textSecondary)]> ∅))))))).

Definition defaultBranding : obj :=
  <["appName" := VStr (js "JurisAI")]>
 (<["tagline" := VStr (js "Assistente Jurídico Inteligente")]>
 (<["logo" := VStr (js "/logo.svg")]>
 (<["favicon" := VStr (js "/favicon.ico")]>
 (<["colors" := VObj
      (<["light" := scheme "#1e40af" "#64748b" "#f59e0b" "#ffffff"
                           "#f8fafc" "#1e293b" "#64748b"]>
      (<["dark" := scheme "#3b82f6" "#94a3b8" "#fbbf24" "#0f172a"
                          "#1e293b" "#f1f5f9" "#94a3b8"]> ∅))]>
 (<["fonts" := VObj
      (<["primary" := VStr (js "Inter")]>
      (<["secondary" := VStr (js "system-ui")]> ∅))]>
 (<["contact" := VObj
      (<["email" := VStr (js "contato@jurisai.com.br")]>
      (<["phone" := VStr (js "+55 11 99999-9999")]>
      (<["website" := VStr (js "https://jurisai.com.br")]> ∅)))]> ∅)))))).

(** *** The shapes declared in src/types/index.ts *)

Definition scheme_keys : list string :=
  ["primary"; "secondary"; "accent"; "background"; "surface"; "text";
   "textSecondary"].

Definition branding_keys : list string :=
  ["appName"; "tagline"; "logo"; "favicon"; "colors"; "fonts"; "contact"].

Definition is_ColorScheme : value → bool := has_strings scheme_keys.

Definition is_Colors (v : value) : bool :=
  match v with
  | VObj m => is_ColorScheme (get m "light") && is_ColorScheme (get m "dark")
  | _ => false
  end.

(** [field_ok k v]: [v] is populated as [BrandingConfig] declares key [k]. *)
Definition field_ok (k : string) (v : value) : bool :=
  if bool_decide (k = "colors") then is_Colors v
  else if bool_decide (k = "fonts") then has_strings ["primary"; "secondary"] v
  else if bool_decide (k = "contact")
       then has_strings ["email"; "phone"; "website"] v
  else is_string v.

(** Every [BrandingConfig] key populated, both variants with all seven
    [ColorScheme] keys. *)
Definition is_BrandingConfig (b : obj) : bool :=
  forallb (λ k, field_ok k (get b k)) branding_keys.

(** [Partial<BrandingConfig>] with every supplied key holding a complete
    value of the key's declared type. *)
Definition is_PartialBranding (p : obj) : bool :=
  forallb (λ k, match p !! k with
                | None => true
                | Some v => field_ok k v
                end) branding_keys.

(** *** The document, as far as the hook touches it *)

Inductive DomCall : Type :=
| SetProperty (name : string) (v : value)  (* root.style.setProperty *)
| SetTitle (t : jsstring)                  (* document.title = ... *)
| SetFaviconHref (v : value).              (* favicon.href = ... *)

Record Dom : Type := mkDom {
  dark_class : bool;        (* documentElement.classList.contains('dark') *)
  icon_link : bool;         (* querySelector('link[rel="icon"]') is found *)
  calls : list DomCall      (* writes issued so far, oldest first *)
}.

Record HookState : Type := mkHook {
  branding : obj;                       (* useState<BrandingConfig> *)
  localStorage : gmap string jsstring;
  document : Dom
}.

Section Hook.

(** [JSON.stringify], a function of the platform. *)
Variable JSON_stringify : value → jsstring.

Definition applyBrandingToDOM (brandingConfig : obj) (d : Dom)
  : option Dom :=
  colors ← member (get brandingConfig "colors")
                  (if dark_class d then "dark" else "light");
  primary ← member colors "primary";
  secondary ← member colors "secondary";
  accent ← member colors "accent";
  background ← member colors "background";
  surface ← member colors "surface";
  text ← member colors "text";
  textSecondary ← member colors "textSecondary";
  let title := ToString (get brandingConfig "appName") ++ js " - "
               ++ ToString (get brandingConfig "tagline") in
  Some (mkDom (dark_class d) (icon_link d)
          (calls d ++
           [SetProperty "--color-primary" primary;
            SetProperty "--color-secondary" secondary;
            SetProperty "--color-accent" accent;
            SetProperty "--color-background" background;
            SetProperty "--color-surface" surface;
            SetProperty "--color-text" text;
            SetProperty "--color-text-secondary" textSecondary;
            SetTitle title] ++
           (if icon_link d
            then [SetFaviconHref (get brandingConfig "favicon")]
            else []))).

(** [setBranding(b)] *)
Definition setBranding (b : obj) (st : HookState) : HookState :=
  mkHook b (localStorage st) (document st).

(** [localStorage.setItem(k, v)], on a storage area that has room for
    the text (the quota comes in with [updateBranding_from] below), and
    [localStorage.removeItem(k)] *)
Definition setItem (k : string) (v : jsstring) (st : HookState)
  : HookState :=
  mkHook (branding st) (<[k := v]> (localStorage st)) (document st).

Definition removeItem (k : string) (st : HookState) : HookState :=
  mkHook (branding st) (delete k (localStorage st)) (document st).

(** The call [applyBrandingToDOM(b)] that ends both handlers: its
    TypeError, raised before the first write, ends the handler too. *)
Definition apply_last (b : obj) (st : HookState)
  : HookState * completion :=
  match applyBrandingToDOM b (document st) with
  | Some d => (mkHook (branding st) (localStorage st) d, Normal)
  | None => (st, ThrowsTypeError)
  end.

Definition updateBranding (newBranding : obj) (st : HookState)
  : HookState * completion :=
  (* { ...branding, ...newBranding }: the later spread wins *)
  let updatedBranding := newBranding ∪ branding st in
  apply_last updatedBranding
    (setItem "branding" (JSON_stringify (VObj updatedBranding))
       (setBranding updatedBranding st)).

Definition resetBranding (st : HookState) : HookState * completion :=
  apply_last defaultBranding
    (removeItem "branding" (setBranding defaultBranding st)).

(** A sequence of [updateBranding] calls, each made from a render that
    has seen the previous one. *)
Definition updates (ps : list obj) (st : HookState) : HookState :=
  foldl (λ s p, (updateBranding p s).1) st ps.

(** The quota of the storage area: whether [localStorage.setItem]
    stores the text, given what the area holds, or throws
    [QuotaExceededError]. *)
Variable accepts : gmap string jsstring → jsstring → bool.

(** [updateBranding] as a render creates it.  The [branding] it spreads
    is the record of that render, whatever the state has become since;
    [setItem] may throw, after [setBranding] and before the page is
    touched. *)
Definition updateBranding_from (rendered newBranding : obj)
    (st : HookState) : HookState * completion :=
  let updatedBranding := newBranding ∪ rendered in
  let text := JSON_stringify (VObj updatedBranding) in
  let st1 := setBranding updatedBranding st in
  if accepts (localStorage st) text
  then apply_last updatedBranding (setItem "branding" text st1)
  else (st1, ThrowsQuotaExceeded).

(** A call with the render it comes from: [None] for the render that
    follows the previous call, [Some b] for an earlier render, whose
    record was [b]. *)
Definition invoke (c : option obj * obj) (st : HookState)
  : HookState * completion :=
  updateBranding_from (default (branding st) c.1) c.2 st.

Definition invocations (cs : list (option obj * obj)) (st : HookState)
  : HookState :=
  foldl (λ s c, (invoke c s).1) st cs.

(** Calls that each come from the render that follows the previous
    one. *)
Definition in_turn (ps : list obj) : list (option obj * obj) :=
  (λ p, (None, p)) <$> ps.

End Hook.

(** *** The merge as section 4.1 of the specification words it *)

(** Key by key inside one [ColorScheme]. *)
Definition spec_merge_scheme (part cur : value) : value :=
  match part, cur with
  | VObj p, VObj c => VObj (p ∪ c)
  | _, _ => part
  end.

(** Variant by variant inside [colors]. *)
Definition spec_merge_colors (part cur : value) : value :=
  match part, cur with
  | VObj p, VObj c =>
      VObj (union_with (λ pv cv, Some (spec_merge_scheme pv cv)) p c)
  | _, _ => part
  end.

(** Shallow on every top-level key but [colors]. *)
Definition spec_merge (cur part : obj) : obj :=
  match part !! "colors", cur !! "colors" with
  | Some pc, Some cc =>
      <["colors" := spec_merge_colors pc cc]> (part ∪ cur)
  | _, _ => part ∪ cur
  end.

(** An override of one colour of the light variant only. *)
Definition primary_only : obj :=
  <["colors" := VObj (<["light" :=
      VObj (<["primary" := VStr (js "#000000")]> ∅)]> ∅)]> ∅.

(** An override that names a key without a value: [{appName: undefined}]. *)
Definition undefined_name : obj := {["appName" := VUndef]}.

(** An override that is complete for the key it supplies. *)
Definition rename_override : obj := {["appName" := VStr (js "Lex")]}.

(** The hook before any update: the compiled-in defaults. *)
Definition initial (ls : gmap string jsstring) (d : Dom) : HookState :=
  mkHook defaultBranding ls d.

(** A light-themed page without an icon link, nothing stored. *)
Definition fresh : HookState := initial ∅ (mkDom false false []).

End Branding.

(* ================================================================== *)
(** ** src/types/index.ts: the operational configuration *)
(* ================================================================== *)

Module Types.

Inductive CourtType : Type := estadual | federal | superior.

Record Court : Type := mkCourt {
  court_id : jsstring;
  court_name : jsstring;
  court_url : jsstring;
  court_type : CourtType
}.

Record ApiSettings : Type := mkApiSettings {
  baseUrl : jsstring;
  timeout : N                     (* milliseconds *)
}.

Record Features : Type := mkFeatures {
  documentAnalysis : bool;
  caseSearch : bool;
  contractAnalysis : bool;
  jurisprudenceSearch : bool;
  mindMap : bool
}.

Record FileUpload : Type := mkFileUpload {
  maxSize : Z;                    (* bytes *)
  allowedTypes : list jsstring;
  maxFiles : Z
}.

Record AppConfig : Type := mkAppConfig {
  api : ApiSettings;
  features : Features;
  courts : list Court;
  fileUpload : FileUpload
}.

(** The part of a browser [File] the handlers read. *)
Record File : Type := mkFile {
  file_name : jsstring;
  file_type : jsstring;
  file_size : Z
}.

End Types.

Import Types.

(* ================================================================== *)
(** ** src/utils/api.ts: the API client *)
(* ================================================================== *)

Module Api.

(** A thrown value: whether it is an instance of [Error], its [name] and
    its [message]. *)
Record Thrown : Type := mkThrown {
  instanceof_Error : bool;
  name : jsstring;
  message : jsstring
}.

(** [new Error(msg)] *)
Definition new_Error (msg : jsstring) : Thrown :=
  mkThrown true (js "Error") msg.

(** What a promise of the platform does: it settles [t] milliseconds after
    the call, rejected or fulfilled, or it never settles. *)
Inductive promise (A : Type) : Type :=
| Settles (t : N) (r : Thrown + A)
| Never.
Arguments Settles {A} t r.
Arguments Never {A}.

(** What an asynchronous method does for its caller. *)
Inductive outcome (A : Type) : Type :=
| Returns (v : A)
| Throws (e : Thrown)
| Pending.
Arguments Returns {A} v.
Arguments Throws {A} e.
Arguments Pending {A}.

(** [HeadersInit]: a plain object, a [Headers] instance, or an array of
    name and value pairs. *)
Inductive HeadersInit : Type :=
| HeadersRecord (h : gmap string jsstring)
| HeadersInstance (h : list (jsstring * jsstring))
| HeadersPairs (h : list (jsstring * jsstring)).

(** The members of [RequestInit] that the methods of the client set;
    every one of them is optional. *)
Record RequestInit : Type := mkInit {
  method : option jsstring;
  body : option jsstring;
  headers : option HeadersInit
}.

Definition no_options : RequestInit := mkInit None None None.

(** A value of the [headers] object literal that [request] builds: a
    string, or the two-element array that spreading an array of pairs
    copies under its index. *)
Inductive HeaderValue : Type :=
| HText (v : jsstring)
| HPair (name value : jsstring).

(** The object [request] passes to [fetch]. *)
Record FetchInit : Type := mkFetchInit {
  fetch_method : option jsstring;
  fetch_body : option jsstring;
  fetch_headers : gmap string HeaderValue
}.

(** [...options.headers] inside an object literal copies the own
    enumerable properties: the entries of a plain object under their
    names as written, nothing of a [Headers] instance (its entries are
    not properties), the pairs of an array under their indices, nothing
    of [undefined]. *)
Definition spread_headers (h : option HeadersInit)
  : gmap string HeaderValue :=
  match h with
  | None => ∅
  | Some (HeadersRecord m) => HText <$> m
  | Some (HeadersInstance _) => ∅
  | Some (HeadersPairs l) =>
      list_to_map (imap (λ i p, (pretty i, HPair p.1 p.2)) l)
  end.

Section Client.

(** The parsed body of a response. *)
Variable T : Type.

Record Response : Type := mkResponse {
  ok : bool;
  status : N;
  json : promise T              (* response.json() *)
}.

(** The server and the transport: what an un-aborted [fetch] of a URL
    would do. *)
Variable network : jsstring → FetchInit → promise Response.

(** How long after its delay the callback of the timer runs:
    [setTimeout] runs it no sooner than the delay, and later when the
    event loop is busy. *)
Variable timer_lateness : N.

Definition timer_fires (delay : N) : N := (delay + timer_lateness)%N.

(** The rejection [fetch] delivers when its signal is aborted: a
    [DOMException] named [AbortError], which inherits from [Error]; its
    message is the browser's. *)
Variable abort_message : jsstring.

Definition AbortError : Thrown :=
  mkThrown true (js "AbortError") abort_message.

(** [fetch(url, { ..., signal })] together with
    [setTimeout(() => controller.abort(), delay)]: the answer and the
    callback of the timer race, and the answer counts when it comes
    before the callback runs. *)
Definition fetch_with_abort (delay : N) (url : jsstring)
    (init : FetchInit) : Thrown + Response :=
  match network url init with
  | Settles t r => if (t <? timer_fires delay)%N then r else inl AbortError
  | Never => inl AbortError
  end.

(** [JSON.stringify], for the request bodies. *)
Variable JSON_stringify : value → jsstring.

Record ApiClient : Type := mkClient {
  client_baseUrl : jsstring;
  client_timeout : N
}.

(** The constructor. *)
Definition new_ApiClient (config : AppConfig) : ApiClient :=
  mkClient (baseUrl (api config)) (timeout (api config)).

(** [new Error('Request timeout')] *)
Definition timeout_error : Thrown := new_Error (js "Request timeout").

(** [new Error(`HTTP error! status: ${response.status}`)] *)
Definition http_error (response : Response) : Thrown :=
  new_Error (js "HTTP error! status: " ++ js (pretty (status response))).

(** The [catch] block of [request]. *)
Definition request_catch (error : Thrown) : outcome T :=
  if instanceof_Error error && bool_decide (name error = js "AbortError")
  then Throws timeout_error
  else Throws error.

(** The URL and the options [request] hands to [fetch]: what the
    spread of the caller's headers copies is laid over the JSON content
    type. *)
Definition request_url (this : ApiClient) (endpoint : jsstring)
  : jsstring := client_baseUrl this ++ endpoint.

Definition request_init (options : RequestInit) : FetchInit :=
  mkFetchInit (method options) (body options)
    (spread_headers (headers options)
     ∪ {["Content-Type" := HText (js "application/json")]}).

Definition request (this : ApiClient) (endpoint : jsstring)
    (options : RequestInit) : outcome T :=
  let url := request_url this endpoint in
  let init := request_init options in
  match fetch_with_abort (client_timeout this) url init with
  | inl error => request_catch error
  | inr response =>
      (* the timer is cleared here: nothing aborts the body read *)
      if negb (ok response)
      then request_catch (http_error response)
      else match json response with
           | Settles _ (inr v) => Returns v
           | Settles _ (inl error) => request_catch error
           | Never => Pending
           end
  end.

Definition post (b : option jsstring) : RequestInit :=
  mkInit (Some (js "POST")) b None.

Definition analyzeDocument (this : ApiClient)
    (documentId analysisType : jsstring) : outcome T :=
  request this
    (js "/api/documents/" ++ documentId ++ js "/analyze")
    (post (Some (JSON_stringify
             (VObj {["analysisType" := VStr analysisType]})))).

Definition searchCase (this : ApiClient) (caseNumber court : jsstring)
  : outcome T :=
  request this (js "/api/cases/search")
    (post (Some (JSON_stringify
             (VObj (<["caseNumber" := VStr caseNumber]>
                     {["court" := VStr court]}))))).

Definition analyzeContract (this : ApiClient) (documentId : jsstring)
  : outcome T :=
  request this (js "/api/contracts/" ++ documentId ++ js "/analyze")
    (post None).

Definition getDocumentAnalysis (this : ApiClient)
    (documentId : jsstring) : outcome T :=
  request this (js "/api/documents/" ++ documentId ++ js "/analysis")
    no_options.

Definition generateMindMap (this : ApiClient) (documentId : jsstring)
  : outcome T :=
  request this (js "/api/documents/" ++ documentId ++ js "/mindmap")
    (post None).

(** The promise has not settled [delay] milliseconds after the call. *)
Definition unanswered {A : Type} (delay : N) (p : promise A) : bool :=
  match p with
  | Settles t _ => negb (t <? delay)%N
  | Never => true
  end.

End Client.

End Api.

(* ================================================================== *)
(** ** src/utils/api.ts: input sanitization and file validation *)
(* ================================================================== *)

Module Validation.

(** *** [String.prototype.trim] *)

(** WhiteSpace and LineTerminator of ECMAScript. *)
Definition is_ws (c : N) : bool :=
  bool_decide (c ∈ [9; 10; 11; 12; 13; 32; 160; 5760; 8192; 8193; 8194;
                    8195; 8196; 8197; 8198; 8199; 8200; 8201; 8202; 8232;
                    8233; 8239; 8287; 12288; 65279]%N).

Fixpoint trimStart (s : jsstring) : jsstring :=
  match s with
  | [] => []
  | c :: rest => if is_ws c then trimStart rest else s
  end.

Definition trim (s : jsstring) : jsstring :=
  reverse (trimStart (reverse (trimStart s))).

(** *** The three global replacements of [sanitizeInput] *)

(** [.replace(/[<>]/g, '')] *)
Definition remove_angle (s : jsstring) : jsstring :=
  filter (λ c, c ≠ code "<" ∧ c ≠ code ">") s.

(** Canonicalize of a non-unicode [/i] pattern, which never identifies a
    code unit above 127 with one below. *)
Definition canon (c : N) : N :=
  if ((97 <=? c) && (c <=? 122))%N then (c - 32)%N else c.

Fixpoint starts_with_ci (pat s : jsstring) : bool :=
  match pat, s with
  | [], _ => true
  | p :: pat', c :: s' => (canon p =? canon c)%N && starts_with_ci pat' s'
  | _ :: _, [] => false
  end.

(** [.replace(/pat/gi, '')] for a literal [pat]: scan from the left;
    [skip] counts the code units of the current match still to drop. *)
Fixpoint remove_ci (pat : jsstring) (skip : nat) (s : jsstring) : jsstring :=
  match s with
  | [] => []
  | c :: rest =>
      match skip with
      | S k => remove_ci pat k rest
      | O => if starts_with_ci pat s
             then remove_ci pat (length pat - 1) rest
             else c :: remove_ci pat 0 rest
      end
  end.

(** [\w] *)
Definition is_word (c : N) : bool :=
  ((48 <=? c) && (c <=? 57) || (65 <=? c) && (c <=? 90) || (c =? 95)
   || (97 <=? c) && (c <=? 122))%N.

Fixpoint word_run (s : jsstring) : nat :=
  match s with
  | c :: rest => if is_word c then S (word_run rest) else 0
  | [] => 0
  end.

(** Length of the match of [/on\w+=/i] at the head of [s].  [=] is no word
    character, so the greedy run is the only candidate. *)
Definition handler_match (s : jsstring) : option nat :=
  match s with
  | o :: n :: rest =>
      if ((canon o =? code "O") && (canon n =? code "N"))%N
      then match word_run rest, drop (word_run rest) rest with
           | S r, e :: _ =>
               if (e =? code "=")%N then Some (2 + S r + 1) else None
           | _, _ => None
           end
      else None
  | _ => None
  end.

Arguments handler_match : simpl never.

(** [.replace(/on\w+=/gi, '')] *)
Fixpoint remove_handlers (skip : nat) (s : jsstring) : jsstring :=
  match s with
  | [] => []
  | c :: rest =>
      match skip with
      | S k => remove_handlers k rest
      | O => match handler_match s with
             | Some len => remove_handlers (len - 1) rest
             | None => c :: remove_handlers 0 rest
             end
      end
  end.

Definition sanitizeInput (input : jsstring) : jsstring :=
  trim (remove_handlers 0
         (remove_ci (js "javascript:") 0 (remove_angle input))).

(** *** File checks *)

(** [s.split(sep)] for a one-unit separator. *)
Fixpoint split (sep : N) (s : jsstring) : list jsstring :=
  match s with
  | [] => [[]]
  | c :: rest =>
      if (c =? sep)%N then [] :: split sep rest
      else match split sep rest with
           | seg :: segs => (c :: seg) :: segs
           | [] => [[c]]
           end
  end.

(** ASCII letters to lower case; the full [toLowerCase] agrees with it on
    strings of code units below 128. *)
Definition ascii_toLowerCase (s : jsstring) : jsstring :=
  (λ c, if ((65 <=? c) && (c <=? 90))%N then (c + 32)%N else c) <$> s.

Section Files.

(** [String.prototype.toLowerCase], a function of the platform. *)
Variable toLowerCase : jsstring → jsstring.

(** ['.' + file.name.split('.').pop()?.toLowerCase()] *)
Definition fileExtension (file : File) : jsstring :=
  match last (split (code ".") (file_name file)) with
  | Some seg => code "." :: toLowerCase seg
  | None => js ".undefined"
  end.

Definition validateFileType (file : File) (allowedTypes : list jsstring)
  : bool :=
  bool_decide (fileExtension file ∈ allowedTypes).

Definition validateFileSize (file : File) (maxSize : Z) : bool :=
  (file_size file <=? maxSize)%Z.

End Files.

(** The text after the final [sep] of [s], when [s] has one. *)
Fixpoint after_final (sep : N) (s : jsstring) : option jsstring :=
  match s with
  | [] => None
  | c :: rest =>
      match after_final sep rest with
      | Some t => Some t
      | None => if (c =? sep)%N then Some rest else None
      end
  end.

(** The extension of a file name: the text after its final dot, and the
    whole name when it has no dot. *)
Definition extension (name : jsstring) : jsstring :=
  default name (after_final (code ".") name).

End Validation.

Import Validation.

(* ================================================================== *)
(** ** src/components/DocumentUpload.tsx *)
(* ================================================================== *)

Module DocumentUpload.

Inductive Status : Type := uploading | processing | ready | error.

Record DocumentAnalysis : Type := mkAnalysis {
  summary : jsstring;
  keyPoints : list jsstring;
  parties : list jsstring;
  dates : list jsstring;
  obligations : list jsstring;
  risks : list jsstring
}.

Record Document : Type := mkDocument {
  id : jsstring;
  name : jsstring;
  type : jsstring;
  size : Z;
  uploadedAt : Z;
  status : Status;
  analysis : option DocumentAnalysis
}.

(** What the handler asks of its surroundings, in order. *)
Inductive Effect : Type :=
| Alert (msg : jsstring)                          (* alert(...) *)
| SimulateUpload (documentId : jsstring) (file : File).

(** The values the clock and the random generator give while one file is
    handled. *)
Record Tick : Type := mkTick {
  date_now : N;             (* Date.now() *)
  random36 : jsstring;      (* Math.random().toString(36).substr(2, 9) *)
  new_date : Z              (* new Date() *)
}.

Section Handler.

Variable toLowerCase : jsstring → jsstring.

(** [Number.prototype.toString] as a template literal applies it to the
    quotient [maxSize / 1024 / 1024]. *)
Variable Number_toString : Q → jsstring.

Variable appConfig : AppConfig.

(** The clock and the generator, by position in the drop. *)
Variable ticks : nat → Tick.

Definition type_message (file : File) : jsstring :=
  js "Tipo de arquivo não suportado: " ++ file_name file.

Definition size_message (file : File) : jsstring :=
  js "Arquivo muito grande: " ++ file_name file
  ++ js ". Tamanho máximo: "
  ++ Number_toString (inject_Z (maxSize (fileUpload appConfig))
                      / 1024 / 1024)%Q
  ++ js "MB".

Definition new_document (file : File) (t : Tick) : Document :=
  mkDocument (js (pretty (date_now t)) ++ random36 t)
    (file_name file) (file_type file) (file_size file) (new_date t)
    uploading None.

(** The body of [acceptedFiles.forEach], file number [i] first. *)
Fixpoint forEach (files : list File) (i : nat)
    (newDocuments : list Document) (log : list Effect)
  : list Document * list Effect :=
  match files with
  | [] => (newDocuments, log)
  | file :: rest =>
      if negb (validateFileType toLowerCase file
                 (allowedTypes (fileUpload appConfig)))
      then forEach rest (S i) newDocuments
             (log ++ [Alert (type_message file)])
      else if negb (validateFileSize file (maxSize (fileUpload appConfig)))
      then forEach rest (S i) newDocuments
             (log ++ [Alert (size_message file)])
      else
        let document := new_document file (ticks i) in
        forEach rest (S i) (newDocuments ++ [document])
          (log ++ [SimulateUpload (id document) file])
  end.

(** [onDrop]: the document list handed to [onDocumentsChange] (the list
    is left as it is when nothing was accepted) and the effects. *)
Definition onDrop (documents : list Document) (acceptedFiles : list File)
  : list Document * list Effect :=
  let '(newDocuments, log) := forEach acceptedFiles 0 [] [] in
  if (0 <? length newDocuments)%nat
  then (documents ++ newDocuments, log)
  else (documents, log).

End Handler.

End DocumentUpload.

(* ================================================================== *)
(** ** src/components/CaseSearch.tsx *)
(* ================================================================== *)

Module CaseSearch.

Inductive date : Type :=
| Parsed (iso : jsstring)       (* new Date('2024-01-15') *)
| Instant (ms : Z).             (* new Date() *)

Inductive EventType : Type := decision | hearing | filing | deadline.
Inductive Priority : Type := high | medium | low.

Record CaseEvent : Type := mkEvent {
  event_id : jsstring;
  event_date : date;
  event_description : jsstring;
  event_type : EventType
}.

Record Deadline : Type := mkDeadline {
  deadline_id : jsstring;
  deadline_date : date;
  deadline_description : jsstring;
  priority : Priority;
  completed : bool
}.

Record CaseInfo : Type := mkCaseInfo {
  number : jsstring;
  court : jsstring;
  status : jsstring;
  parties : list jsstring;
  subject : jsstring;
  lastUpdate : date;
  timeline : list CaseEvent;
  deadlines : list Deadline
}.

(** The five [useState] cells of the component. *)
Record State : Type := mkState {
  caseNumber : jsstring;
  selectedCourt : jsstring;
  isSearching : bool;
  caseInfo : option CaseInfo;
  error : jsstring
}.

(** Calls of the state setters. *)
Inductive Set_ : Type :=
| setIsSearching (b : bool)
| setCaseInfo (c : option CaseInfo)
| setError (e : jsstring).

Definition apply_set (st : State) (c : Set_) : State :=
  match c with
  | setIsSearching b =>
      mkState (caseNumber st) (selectedCourt st) b (caseInfo st) (error st)
  | setCaseInfo i =>
      mkState (caseNumber st) (selectedCourt st) (isSearching st) i
        (error st)
  | setError e =>
      mkState (caseNumber st) (selectedCourt st) (isSearching st)
        (caseInfo st) e
  end.

Definition apply_sets (st : State) (cs : list Set_) : State :=
  foldl apply_set st cs.

(** A string is falsy exactly when it is empty. *)
Definition falsy (s : jsstring) : bool :=
  match s with [] => true | _ => false end.

Definition validation_message : jsstring :=
  js "Por favor, informe o número do processo e selecione o tribunal.".

(** [handleSearch] up to its [await]: the setter calls, and whether the
    simulated request (the two-second timer) was started. *)
Definition handleSearch (st : State) : list Set_ * bool :=
  if falsy (trim (caseNumber st)) || falsy (selectedCourt st)
  then ([setError validation_message], false)
  else ([setIsSearching true; setError []; setCaseInfo None], true).

Definition mockCaseInfo (courts : list Court) (caseNumber selectedCourt
    : jsstring) (now : Z) : CaseInfo :=
  mkCaseInfo caseNumber
    (match List.find (λ c, bool_decide (court_id c = selectedCourt)) courts
     with
     | Some c => if falsy (court_name c) then selectedCourt
                 else court_name c
     | None => selectedCourt
     end)
    (js "Em andamento")
    [js "João Silva"; js "Empresa XYZ Ltda."]
    (js "Ação de Cobrança")
    (Instant now)
    [mkEvent (js "1") (Parsed (js "2024-01-15"))
       (js "Distribuição do processo") filing;
     mkEvent (js "2") (Parsed (js "2024-02-01"))
       (js "Citação da parte requerida") filing;
     mkEvent (js "3") (Parsed (js "2024-02-20"))
       (js "Apresentação de contestação") filing;
     mkEvent (js "4") (Parsed (js "2024-03-10"))
       (js "Audiência de conciliação designada") hearing]
    [mkDeadline (js "1") (Parsed (js "2024-03-10"))
       (js "Audiência de conciliação") high false;
     mkDeadline (js "2") (Parsed (js "2024-03-25"))
       (js "Prazo para manifestação sobre documentos") medium false].

(** [handleSearch] after its [await], with the case number and the court
    of the render that started it. *)
Definition handleSearch_resume (courts : list Court) (started : State)
    (now : Z) : list Set_ :=
  [setCaseInfo (Some (mockCaseInfo courts (caseNumber started)
                        (selectedCourt started) now));
   setIsSearching false].

(** One click on the search button, and the timer when it was armed. *)
Definition search (courts : list Court) (now : Z) (st : State) : State :=
  let '(sets, started) := handleSearch st in
  let st1 := apply_sets st sets in
  if started then apply_sets st1 (handleSearch_resume courts st now)
  else st1.

End CaseSearch.

(* ================================================================== *)
(** ** pages/MainPage.tsx *)
(* ================================================================== *)

Module MainPage.

Inductive Role : Type := user | assistant.

Record Metadata : Type := mkMetadata {
  documentId : option jsstring;
  analysisType : option jsstring;
  meta_caseNumber : option jsstring
}.

Record ChatMessage : Type := mkMessage {
  id : jsstring;
  type : Role;
  content : jsstring;
  timestamp : Z;
  metadata : option Metadata
}.

Record State : Type := mkState {
  messages : list ChatMessage;
  currentMessage : jsstring
}.

Section Page.

(** The [branding] prop of the render. *)
Variable branding : obj.

Definition greeting (now : Z) : ChatMessage :=
  mkMessage (js "1") assistant
    (js "Olá! Sou o " ++ ToString (get branding "appName")
     ++ js ", seu assistente jurídico inteligente. Como posso ajudá-lo hoje?")
    now None.

(** The state of the first render. *)
Definition initial (now : Z) : State := mkState [greeting now] [].

(** [handleSendMessage] up to the timer it arms. *)
Definition handleSendMessage (now : N) (date : Z) (st : State) : State :=
  if CaseSearch.falsy (trim (currentMessage st)) then st
  else mkState
         (messages st ++
          [mkMessage (js (pretty now)) user (currentMessage st) date None])
         [].

(** The callback of that timer. *)
Definition assistant_reply (now : N) (date : Z) (st : State) : State :=
  mkState
    (messages st ++
     [mkMessage (js (pretty (now + 1)%N)) assistant
        (js "Entendi sua solicitação. Como posso ajudá-lo com isso?")
        date None])
    (currentMessage st).

Definition clearChat (now : Z) (st : State) : State :=
  mkState [greeting now] (currentMessage st).

End Page.

End MainPage.

(* ================================================================== *)
(** ** App.tsx *)
(* ================================================================== *)

Module App.

Import Api.

(** What [response.json()] can deliver besides [null], the component
    checking nothing: an object of the declared shape, or some other
    truthy value such as [{}], of which the code reads the [api] member
    only (it is an object with a base URL and a timeout, or it is not
    there). *)
Inductive Loaded : Type :=
| Typed (c : AppConfig)
| Untyped (api : option ApiSettings).

(** [config.api] *)
Definition loaded_api (l : Loaded) : option ApiSettings :=
  match l with
  | Typed c => Some (api c)
  | Untyped a => a
  end.

(** What [fetch('/config/app.json')] and [response.json()] do.  A parsed
    body is [null] or a loaded value. *)
Inductive ConfigFetch : Type :=
| FetchRejects (e : Thrown)
| FetchResponds (ok : bool) (body : Thrown + option Loaded).

(** The value in [appConfig] ([null] at first), the flags of the
    component, the flag of the branding hook, and the two globals the
    component touches. *)
Record State : Type := mkState {
  appConfig : option Loaded;
  isSetupComplete : bool;
  isLoading : bool;
  brandingLoading : bool;
  apiClient : option ApiClient;              (* let apiClient = null *)
  localStorage : gmap string jsstring;
  console : list Thrown                      (* console.error *)
}.

Definition initial (ls : gmap string jsstring) : State :=
  mkState None false true true None ls [].

(** [config.api] of a [null] configuration raises a TypeError in the
    constructor, before [apiClient] is assigned. *)
Definition null_TypeError : Thrown :=
  mkThrown true (js "TypeError")
    (js "Cannot read properties of null (reading 'api')").

(** [config.api.baseUrl] of a value without [api] raises a TypeError
    there as well. *)
Definition undefined_TypeError : Thrown :=
  mkThrown true (js "TypeError")
    (js "Cannot read properties of undefined (reading 'baseUrl')").

Definition setApiClient (client : ApiClient) (st : State) : State :=
  mkState (appConfig st) (isSetupComplete st) (isLoading st)
    (brandingLoading st) (Some client) (localStorage st) (console st).

Definition initializeApi (config : option Loaded) (st : State)
  : State + Thrown :=
  match config with
  | Some (Typed c) => inl (setApiClient (new_ApiClient c) st)
  | Some (Untyped (Some a)) =>
      inl (setApiClient (mkClient (baseUrl a) (timeout a)) st)
  | Some (Untyped None) => inr undefined_TypeError
  | None => inr null_TypeError
  end.

Definition log_error (e : Thrown) (st : State) : State :=
  mkState (appConfig st) (isSetupComplete st) (isLoading st)
    (brandingLoading st) (apiClient st) (localStorage st)
    (console st ++ [e]).

Definition setAppConfig (c : option Loaded) (st : State) : State :=
  mkState c (isSetupComplete st) (isLoading st) (brandingLoading st)
    (apiClient st) (localStorage st) (console st).

Definition loadAppConfig (f : ConfigFetch) (st : State) : State :=
  match f with
  | FetchRejects e => log_error e st
  | FetchResponds false _ => st
  | FetchResponds true (inl e) => log_error e st
  | FetchResponds true (inr config) =>
      let st1 := setAppConfig config st in
      match initializeApi config st1 with
      | inl st2 => st2
      | inr e => log_error e st1
      end
  end.

Definition checkSetupStatus (st : State) : State :=
  mkState (appConfig st)
    (bool_decide (localStorage st !! "setupComplete" = Some (js "true")))
    false (brandingLoading st) (apiClient st) (localStorage st)
    (console st).

Definition completeSetup (st : State) : State :=
  mkState (appConfig st) true (isLoading st) (brandingLoading st)
    (apiClient st) (<["setupComplete" := js "true"]> (localStorage st))
    (console st).

(** The branding hook finishes loading. *)
Definition brandingLoaded (st : State) : State :=
  mkState (appConfig st) (isSetupComplete st) (isLoading st) false
    (apiClient st) (localStorage st) (console st).

Inductive View : Type :=
| LoadingScreen
| Routes (config : Loaded) (setupComplete : bool).

(** The body of the component. *)
Definition render (st : State) : View :=
  match appConfig st with
  | Some config =>
      if isLoading st || brandingLoading st then LoadingScreen
      else Routes config (isSetupComplete st)
  | None => LoadingScreen
  end.

(** What happens to the component after it is mounted. *)
Inductive Event : Type :=
| ConfigSettled (f : ConfigFetch)
| SetupChecked
| SetupCompleted
| BrandingLoaded.

Definition step (st : State) (e : Event) : State :=
  match e with
  | ConfigSettled f => loadAppConfig f st
  | SetupChecked => checkSetupStatus st
  | SetupCompleted => completeSetup st
  | BrandingLoaded => brandingLoaded st
  end.

Definition run (es : list Event) (st : State) : State := foldl step st es.

(** The load failed: the fetch was rejected or answered non-ok. *)
Definition load_failed (f : ConfigFetch) : bool :=
  match f with
  | FetchRejects _ => true
  | FetchResponds ok _ => negb ok
  end.

Definition failed_loads (es : list Event) : bool :=
  forallb (λ e, match e with
                | ConfigSettled f => load_failed f
                | _ => true
                end) es.

End App.

(* ================================================================== *)
(** ** Concrete configurations and inputs *)
(* ================================================================== *)

Module Samples.

(** Ten megabytes, the four extensions of the drop zone. *)
Definition config : AppConfig :=
  mkAppConfig
    (mkApiSettings (js "http://localhost:8000") 30000%N)
    (mkFeatures true true true true true)
    [mkCourt (js "tjsp") (js "TJSP") (js "https://www.tjsp.jus.br")
       estadual]
    (mkFileUpload 10485760%Z [js ".pdf"; js ".doc"; js ".docx"; js ".txt"]
       5%Z).

(** A scan without an extension: the drop zone takes it for its MIME
    type. *)
Definition big_scan : File :=
  mkFile (js "scan") (js "application/pdf") 20000000%Z.

Definition big_pdf : File :=
  mkFile (js "big.pdf") (js "application/pdf") 20000000%Z.

Definition small_txt : File := mkFile (js "a.txt") (js "text/plain") 1024%Z.

Definition ticks (i : nat) : DocumentUpload.Tick :=
  DocumentUpload.mkTick (1700000000000 + N.of_nat i)%N (js "k3j9x0q1z")
    1700000000000%Z.

(** Decimal digits of the integer part; [Number.prototype.toString] on a
    whole number. *)
Definition whole_toString (q : Q) : jsstring :=
  js (pretty (Qnum q / Zpos (Qden q))%Z).

Definition blank_search : CaseSearch.State :=
  CaseSearch.mkState (js "  ") (js "tjsp") false None [].

End Samples.

(* ================================================================== *)
(** ** src/hooks/useBranding.ts: what is written, and loading *)
(* ================================================================== *)

(* ================================================================== *)
(** ** src/hooks/useBranding.ts: loadBranding *)
(* ================================================================== *)

Module LoadBranding.

Import Branding Api.

(** What [fetch('/config/branding.json')] does: it rejects, it answers
    (and [response.json()] rejects, yields a value or never settles), or it
    never settles. *)
Inductive Served : Type :=
| ServeRejects (e : Thrown)
| ServeAnswers (ok : bool) (body : option (Thrown + value))
| ServeNever.

(** The hook of a freshly mounted component.  A parsed text may be any
    value, so the record is kept as a value here. *)
Record Mounted : Type := mkMounted {
  m_branding : value;
  m_isLoading : bool;
  m_storage : gmap string jsstring;
  m_warnings : list Thrown;          (* console.warn *)
  m_fetched : bool                   (* fetch was called *)
}.

Definition mount (ls : gmap string jsstring) : Mounted :=
  mkMounted (VObj defaultBranding) true ls [] false.

Section Load.

(** [JSON.parse]: the value, or the SyntaxError it throws. *)
Variable JSON_parse : jsstring → Thrown + value.

Definition loaded (v : value) (fetched : bool) (m : Mounted) : Mounted :=
  mkMounted v false (m_storage m) (m_warnings m) fetched.

Definition warned (e : Thrown) (fetched : bool) (m : Mounted) : Mounted :=
  mkMounted (m_branding m) false (m_storage m) (m_warnings m ++ [e]) fetched.

Definition loadBranding (served : Served) (m : Mounted) : Mounted :=
  match m_storage m !! "branding" with
  | Some (c :: saved) =>
      (* a non-empty string is truthy *)
      match JSON_parse (c :: saved) with
      | inr v => loaded v (m_fetched m) m
      | inl e => warned e (m_fetched m) m
      end
  | _ =>
      match served with
      | ServeRejects e => warned e true m
      | ServeAnswers true (Some (inr v)) => loaded v true m
      | ServeAnswers true (Some (inl e)) => warned e true m
      | ServeAnswers true None =>
          mkMounted (m_branding m) (m_isLoading m) (m_storage m)
            (m_warnings m) true
      | ServeAnswers false _ =>
          mkMounted (m_branding m) false (m_storage m) (m_warnings m) true
      | ServeNever =>
          mkMounted (m_branding m) (m_isLoading m) (m_storage m)
            (m_warnings m) true
      end
  end.

(** The fetch and the body read both settle. *)
Definition settles (served : Served) : bool :=
  match served with
  | ServeRejects _ => true
  | ServeAnswers true None => false
  | ServeAnswers _ _ => true
  | ServeNever => false
  end.

(** The configuration the server hands out, when it does. *)
Definition served_value (served : Served) : option value :=
  match served with
  | ServeAnswers true (Some (inr v)) => Some v
  | _ => None
  end.

End Load.

End LoadBranding.

(* ================================================================== *)
(** ** pages/SetupPage.tsx *)
(* ================================================================== *)

Module SetupPage.

Import Branding.

Inductive Theme : Type := light | dark.

Definition theme_key (t : Theme) : string :=
  match t with light => "light" | dark => "dark" end.

(** The own enumerable properties an object spread copies: those of an
    object, none of [undefined], the indexed code units of a string. *)
Definition own_props (v : value) : obj :=
  match v with
  | VObj m => m
  | VUndef => ∅
  | VStr s => list_to_map (imap (λ i c, (pretty i, VStr [c])) s)
  end.

(** The draft the page starts with. *)
Definition initial_formData (branding : obj) : obj :=
  <["appName" := get branding "appName"]>
 (<["tagline" := get branding "tagline"]>
 (<["logo" := get branding "logo"]>
 (<["colors" := get branding "colors"]>
 (<["contact" := get branding "contact"]> ∅)))).

(** [{ ...prev, [field]: value }] *)
Definition handleInputChange (field : string) (v : value) (prev : obj)
  : obj :=
  <[field := v]> prev.

(** [None] is the TypeError of [prev.colors[theme]] on a draft without
    [colors]. *)
Definition handleColorChange (theme : Theme) (colorKey : string)
    (v : jsstring) (prev : obj) : option obj :=
  sch ← member (get prev "colors") (theme_key theme);
  Some (<["colors" :=
           VObj (<[theme_key theme :=
                     VObj (<[colorKey := VStr v]> (own_props sch))]>
                   (own_props (get prev "colors")))]> prev).

(** [steps.length] *)
Definition steps_length : nat := 4.

Record Wizard : Type := mkWizard {
  currentStep : nat;
  formData : obj
}.

Definition start (branding : obj) : Wizard :=
  mkWizard 0 (initial_formData branding).

Definition nextStep (w : Wizard) : Wizard :=
  if (currentStep w <? steps_length - 1)%nat
  then mkWizard (currentStep w + 1) (formData w)
  else w.

Definition prevStep (w : Wizard) : Wizard :=
  if (0 <? currentStep w)%nat
  then mkWizard (currentStep w - 1) (formData w)
  else w.

(** What the user does on the page: the [onChange] and [onClick] handlers
    it renders. *)
Inductive Edit : Type :=
| SetAppName (v : jsstring)
| SetTagline (v : jsstring)
| SetLogo (v : jsstring)
| SetColor (theme : Theme) (colorKey : string) (v : jsstring)
| SetEmail (v : jsstring)
| SetPhone (v : jsstring)
| SetWebsite (v : jsstring)
| Next
| Prev.

Definition set_contact (k : string) (v : jsstring) (w : Wizard) : Wizard :=
  mkWizard (currentStep w)
    (handleInputChange "contact"
       (VObj (<[k := VStr v]> (own_props (get (formData w) "contact"))))
       (formData w)).

Definition edit (w : Wizard) (e : Edit) : option Wizard :=
  match e with
  | SetAppName v =>
      Some (mkWizard (currentStep w)
              (handleInputChange "appName" (VStr v) (formData w)))
  | SetTagline v =>
      Some (mkWizard (currentStep w)
              (handleInputChange "tagline" (VStr v) (formData w)))
  | SetLogo v =>
      Some (mkWizard (currentStep w)
              (handleInputChange "logo" (VStr v) (formData w)))
  | SetColor theme colorKey v =>
      mkWizard (currentStep w) <$>
        handleColorChange theme colorKey v (formData w)
  | SetEmail v => Some (set_contact "email" v w)
  | SetPhone v => Some (set_contact "phone" v w)
  | SetWebsite v => Some (set_contact "website" v w)
  | Next => Some (nextStep w)
  | Prev => Some (prevStep w)
  end.

Fixpoint edits (w : Wizard) (es : list Edit) : option Wizard :=
  match es with
  | [] => Some w
  | e :: rest => w' ← edit w e; edits w' rest
  end.

Definition is_Next (e : Edit) : bool :=
  match e with Next => true | _ => false end.

(** [d.colors[theme][k]]; [None] where the access throws. *)
Definition color_at (d : obj) (theme : Theme) (k : string) : option value :=
  sch ← member (get d "colors") (theme_key theme); member sch k.

(** The five keys of a draft are populated as [BrandingConfig] declares
    them. *)
Definition draft_keys : list string :=
  ["appName"; "tagline"; "logo"; "colors"; "contact"].

Definition draft_ok (fd : obj) : bool :=
  forallb (λ k, field_ok k (get fd k)) draft_keys.

Section Complete.

Variable JSON_stringify : value → jsstring.
Variable accepts : gmap string jsstring → jsstring → bool.

(** [onComplete()], the [completeSetup] of the component: its [setItem]
    comes first and may throw. *)
Definition onComplete (app : App.State) : App.State * completion :=
  if accepts (App.localStorage app) (js "true")
  then (App.completeSetup app, Normal)
  else (app, ThrowsQuotaExceeded).

(** [handleComplete]: [updateBranding(formData)] of the page's own hook,
    then [onComplete()], which an exception of the former skips. *)
Definition handleComplete (w : Wizard) (hook : HookState)
    (app : App.State) : HookState * App.State * completion :=
  match updateBranding_from JSON_stringify accepts (branding hook)
          (formData w) hook with
  | (hook', Normal) =>
      let '(app', c) := onComplete app in (hook', app', c)
  | (hook', c) => (hook', app, c)
  end.

End Complete.

End SetupPage.

(* ================================================================== *)
(** ** src/utils/api.ts: the upload call and the singleton *)
(* ================================================================== *)

Module Gateway.

Import Api.

Section Upload.

Variable T : Type.

Record UploadResponse : Type := mkUploadResponse {
  up_ok : bool;
  up_statusText : jsstring;
  up_json : promise T
}.

(** What the upload endpoint does with a file. *)
Variable upload_network : jsstring → File → promise UploadResponse.

(** [uploadDocument]: a bare [fetch], without signal and without timer. *)
Definition uploadDocument (this : ApiClient) (file : File) : outcome T :=
  match upload_network (client_baseUrl this ++ js "/api/documents/upload")
          file with
  | Never => Pending
  | Settles _ (inl e) => Throws e
  | Settles _ (inr response) =>
      if negb (up_ok response)
      then Throws (new_Error (js "Upload failed: " ++ up_statusText response))
      else match up_json response with
           | Settles _ (inr v) => Returns v
           | Settles _ (inl e) => Throws e
           | Never => Pending
           end
  end.

End Upload.

Definition not_initialized : Thrown :=
  new_Error (js "API client not initialized. Call initializeApi first.").

(** [getApiClient], on the module variable the component state carries. *)
Definition getApiClient (st : App.State) : Thrown + ApiClient :=
  match App.apiClient st with
  | Some client => inr client
  | None => inl not_initialized
  end.

(** The load gets as far as the assignment of the client: an ok answer
    whose body parses to a value with an [api] member. *)
Definition binds_client (f : App.ConfigFetch) : bool :=
  match f with
  | App.FetchResponds true (inr (Some l)) =>
      bool_decide (is_Some (App.loaded_api l))
  | _ => false
  end.

Definition unbound_loads (es : list App.Event) : bool :=
  forallb (λ e, match e with
                | App.ConfigSettled f => negb (binds_client f)
                | _ => true
                end) es.

End Gateway.

(* ================================================================== *)
(** ** src/components/DocumentUpload.tsx: simulateUpload *)
(* ================================================================== *)

Module SimulateUpload.

Import DocumentUpload.

Definition mockAnalysis : DocumentAnalysis :=
  mkAnalysis
    (js "Este documento foi analisado com sucesso. Contém informações relevantes sobre o caso.")
    [js "Contrato de prestação de serviços";
     js "Prazo de vigência: 12 meses";
     js "Valor total: R$ 50.000,00";
     js "Cláusula de rescisão antecipada"]
    [js "Empresa A Ltda."; js "Empresa B S.A."]
    [js "01/01/2024"; js "31/12/2024"]
    [js "Prestação de serviços de consultoria";
     js "Pagamento mensal até o dia 10";
     js "Relatórios mensais de atividades"]
    [js "Cláusula de multa elevada";
     js "Ausência de cláusula de força maior"].

(** The document list of the page and the progress map of the panel. *)
Record Panel : Type := mkPanel {
  documents : list Document;
  uploadProgress : gmap jsstring N
}.

(** [{ ...doc, status, analysis }] *)
Definition with_status (doc : Document) (s : Status)
    (a : option DocumentAnalysis) : Document :=
  mkDocument (id doc) (name doc) (type doc) (size doc) (uploadedAt doc) s a.

(** The state updates [simulateUpload] makes, one between two awaits. *)
Inductive Step : Type :=
| Progress (documentId : jsstring) (progress : N)
| Processing (documentId : jsstring)
| Ready (documentId : jsstring)
| Clear (documentId : jsstring).

Definition step_id (s : Step) : jsstring :=
  match s with
  | Progress i _ | Processing i | Ready i | Clear i => i
  end.

Definition step (p : Panel) (s : Step) : Panel :=
  match s with
  | Progress i n => mkPanel (documents p) (<[i := n]> (uploadProgress p))
  | Processing i =>
      mkPanel
        ((λ doc, if bool_decide (id doc = i)
                 then with_status doc processing (analysis doc)
                 else doc) <$> documents p)
        (uploadProgress p)
  | Ready i =>
      mkPanel
        ((λ doc, if bool_decide (id doc = i)
                 then with_status doc ready (Some mockAnalysis)
                 else doc) <$> documents p)
        (uploadProgress p)
  | Clear i => mkPanel (documents p) (delete i (uploadProgress p))
  end.

Definition run (p : Panel) (ss : list Step) : Panel := foldl step p ss.

(** A document as the pipeline of [documentId] leaves it. *)
Definition finished (documentId : jsstring) (doc : Document) : Document :=
  if bool_decide (id doc = documentId)
  then with_status doc ready (Some mockAnalysis)
  else doc.

(** The loop from 0 to 100 by 10, then the two status changes, then the
    removal of the progress entry. *)
Definition simulateUpload (documentId : jsstring) : list Step :=
  ((λ k, Progress documentId (10 * N.of_nat k)%N) <$> seq 0 11)
  ++ [Processing documentId; Ready documentId; Clear documentId].

End SimulateUpload.

(* ================================================================== *)
(** ** src/components/ContractAnalysis.tsx *)
(* ================================================================== *)

Module ContractAnalysis.

Import DocumentUpload.

Fixpoint starts_with (sub s : jsstring) : bool :=
  match sub, s with
  | [], _ => true
  | a :: sub', c :: s' => (a =? c)%N && starts_with sub' s'
  | _ :: _, [] => false
  end.

(** [s.includes(sub)] *)
Fixpoint includes (s sub : jsstring) : bool :=
  starts_with sub s
  || match s with
     | [] => false
     | _ :: rest => includes rest sub
     end.

Section Panel.

Variable toLowerCase : jsstring → jsstring.

(** The predicate of the filter that builds [contractDocuments]. *)
Definition is_contract (doc : Document) : bool :=
  match status doc with
  | ready =>
      includes (toLowerCase (name doc)) (js "contrato")
      || includes (toLowerCase (name doc)) (js "contract")
      || includes (type doc) (js "pdf")
      || includes (type doc) (js "word")
  | _ => false
  end.

Definition contractDocuments (documents : list Document) : list Document :=
  filter (λ doc, is_contract doc = true) documents.

End Panel.

End ContractAnalysis.

(* ================================================================== *)
(** ** pages/MainPage.tsx: a conversation *)
(* ================================================================== *)

Module Chat.

Import MainPage.

(** Typing into the box, sending, and the timer of a send firing. *)
Inductive Event : Type :=
| Typed (text : jsstring)                (* onMessageChange *)
| Send (now : N) (date : Z)
| Reply (now : N) (date : Z).

Definition step (st : State) (e : Event) : State :=
  match e with
  | Typed text => mkState (messages st) text
  | Send now date => handleSendMessage now date st
  | Reply now date => assistant_reply now date st
  end.

Definition run (st : State) (es : list Event) : State := foldl step st es.

End Chat.

(* ================================================================== *)
(** ** More concrete inputs *)
(* ================================================================== *)

Module MoreSamples.

(** A serializer and a parser that agree on one record. *)
Definition stringify_braces (_ : value) : jsstring := js "{}".

Definition renamed : obj := Branding.rename_override ∪ Branding.defaultBranding.

Definition parse_renamed (_ : jsstring) : Api.Thrown + value :=
  inr (VObj renamed).

(** A storage with a saved override. *)
Definition saved_storage : gmap string jsstring := {["branding" := js "{}"]}.

(** A start-up in which the configuration loads. *)
Definition good_start : list App.Event :=
  [App.SetupChecked;
   App.ConfigSettled
     (App.FetchResponds true (inr (Some (App.Typed Samples.config))));
   App.BrandingLoaded].

Definition bad_start : list App.Event :=
  [App.SetupChecked; App.ConfigSettled (App.FetchResponds false (inr None));
   App.BrandingLoaded].

Definition client : Api.ApiClient := Api.mkClient (js "http://h") 5000%N.

(** A server that answers ok after ten milliseconds with a body that
    parses, one whose body never arrives, and one that never answers. *)
Definition ok_network (_ : jsstring) (_ : Api.FetchInit)
  : Api.promise (Api.Response unit) :=
  Api.Settles 10%N
    (inr (Api.mkResponse unit true 200%N (Api.Settles 5%N (inr tt)))).

Definition stalled_network (_ : jsstring) (_ : Api.FetchInit)
  : Api.promise (Api.Response unit) :=
  Api.Settles 10%N (inr (Api.mkResponse unit true 200%N Api.Never)).

Definition silent_network (_ : jsstring) (_ : Api.FetchInit)
  : Api.promise (Api.Response unit) := Api.Never.

(** A server that answers 500 after ten milliseconds, and a transport
    that fails after ten milliseconds. *)
Definition server_error : Api.Response unit :=
  Api.mkResponse unit false 500%N Api.Never.

Definition failing_network (_ : jsstring) (_ : Api.FetchInit)
  : Api.promise (Api.Response unit) := Api.Settles 10%N (inr server_error).

Definition failed_to_fetch : Api.Thrown :=
  Api.mkThrown true (js "TypeError") (js "Failed to fetch").

Definition offline_network (_ : jsstring) (_ : Api.FetchInit)
  : Api.promise (Api.Response unit) := Api.Settles 10%N (inl failed_to_fetch).

(** A timer whose callback runs twenty milliseconds after its delay. *)
Definition busy_loop : N := 20%N.

(** A client configured with a timeout of zero, a server that answers
    ok after two milliseconds, and a timer whose callback runs four
    milliseconds after its delay. *)
Definition hasty_client : Api.ApiClient := Api.mkClient (js "http://h") 0%N.

Definition quick_network (_ : jsstring) (_ : Api.FetchInit)
  : Api.promise (Api.Response unit) :=
  Api.Settles 2%N
    (inr (Api.mkResponse unit true 200%N (Api.Settles 1%N (inr tt)))).

Definition late_timer : N := 4%N.

(** A file whose name has no dot. *)
Definition dotless_txt : File := mkFile (js "txt") (js "text/plain") 1024%Z.

(** A start-up in which the configuration file holds [{}]. *)
Definition empty_start : list App.Event :=
  [App.SetupChecked;
   App.ConfigSettled (App.FetchResponds true (inr (Some (App.Untyped None))));
   App.BrandingLoaded].

(** The wizard walked to its last step, with a few edits on the way,
    and the draft it then holds. *)
Definition walk_through : list SetupPage.Edit :=
  [SetupPage.SetAppName (js "Lex"); SetupPage.Next;
   SetupPage.SetColor SetupPage.dark "primary" (js "#000000");
   SetupPage.Next; SetupPage.Next].

Definition walked : SetupPage.Wizard :=
  SetupPage.mkWizard 3
    (default ∅
       (SetupPage.formData <$>
          SetupPage.edits (SetupPage.start Branding.defaultBranding)
            walk_through)).

(** A storage area with room, and a full one. *)
Definition roomy (_ : gmap string jsstring) (_ : jsstring) : bool := true.

Definition full (_ : gmap string jsstring) (_ : jsstring) : bool := false.

(** Headers as a caller may give them. *)
Definition lower_case_headers : Api.HeadersInit :=
  Api.HeadersRecord {["content-type" := js "text/plain"]}.

Definition headers_instance : Api.HeadersInit :=
  Api.HeadersInstance [(js "content-type", js "text/plain")].

Definition silent_upload (_ : jsstring) (_ : File)
  : Api.promise (Gateway.UploadResponse unit) := Api.Never.

(** Two documents in the list, the second still uploading. *)
Definition contract_pdf : DocumentUpload.Document :=
  DocumentUpload.mkDocument (js "d2") (js "acordo.pdf")
    (js "application/pdf") 2048%Z 0%Z DocumentUpload.uploading None.

Definition notes_txt : DocumentUpload.Document :=
  DocumentUpload.mkDocument (js "d1") (js "notas.txt") (js "text/plain")
    10%Z 0%Z DocumentUpload.ready None.

Definition panel : SimulateUpload.Panel :=
  SimulateUpload.mkPanel [notes_txt; contract_pdf] {[js "d2" := 40%N]}.

Definition typed_search : CaseSearch.State :=
  CaseSearch.mkState (js "0001234-56.2024.8.26.0100") (js "tjsp") false None
    [].

End MoreSamples.

(* ================================================================== *)
(** * Properties *)
(* ================================================================== *)

(** ** The branding store *)

Section BrandingFacts.

Import Branding.

Variable JSON_stringify : value → jsstring.

Lemma get_union (p cur : obj) (k : string) :
  get (p ∪ cur) k = match p !! k with Some v => v | None => get cur k end.
Proof.
  unfold get. rewrite lookup_union.
  destruct (p !! k), (cur !! k); reflexivity.
Qed.

Lemma updateBranding_record (p : obj) (st : HookState) :
  branding (updateBranding JSON_stringify p st).1 = p ∪ branding st.
Proof.
  unfold updateBranding, apply_last.
  destruct (applyBrandingToDOM _ _); reflexivity.
Qed.

Lemma updateBranding_storage (p : obj) (st : HookState) :
  localStorage (updateBranding JSON_stringify p st).1
  = <["branding" := JSON_stringify (VObj (p ∪ branding st))]>
      (localStorage st).
Proof.
  unfold updateBranding, apply_last.
  destruct (applyBrandingToDOM _ _); reflexivity.
Qed.

(** Where the override has no [colors] the two merges are the same. *)
Lemma spec_merge_without_colors (cur p : obj) :
  p !! "colors" = None → spec_merge cur p = p ∪ cur.
Proof. intros H. unfold spec_merge. rewrite H. reflexivity. Qed.

(** A complete scheme laid over a scheme with the same keys replaces it. *)
Lemma spec_merge_scheme_complete (p c : obj) :
  dom c ⊆ dom p → spec_merge_scheme (VObj p) (VObj c) = VObj p.
Proof.
  intros Hd. simpl. f_equal. apply map_eq. intros k.
  rewrite lookup_union.
  destruct (p !! k) eqn:Hp; destruct (c !! k) eqn:Hc; try reflexivity.
  assert (k ∈ dom p) as Hk by (apply Hd, elem_of_dom; eauto).
  apply elem_of_dom in Hk as [v' Hv']. congruence.
Qed.


Lemma field_ok_union (p cur : obj) (k : string) :
  match p !! k with None => true | Some v => field_ok k v end = true →
  field_ok k (get cur k) = true →
  field_ok k (get (p ∪ cur) k) = true.
Proof. rewrite get_union. destruct (p !! k); auto. Qed.

Lemma merge_keeps_populated (p cur : obj) :
  is_PartialBranding p = true →
  is_BrandingConfig cur = true →
  is_BrandingConfig (p ∪ cur) = true.
Proof.
  unfold is_PartialBranding, is_BrandingConfig.
  rewrite !forallb_forall. intros Hp Hc k Hk.
  apply field_ok_union; auto.
Qed.

Lemma updates_snoc (ps : list obj) (p : obj) (st : HookState) :
  updates JSON_stringify (ps ++ [p]) st
  = (updateBranding JSON_stringify p (updates JSON_stringify ps st)).1.
Proof. unfold updates. rewrite foldl_app. reflexivity. Qed.

Lemma updates_populated (ps : list obj) (st : HookState) :
  forallb is_PartialBranding ps = true →
  is_BrandingConfig (branding st) = true →
  is_BrandingConfig (branding (updates JSON_stringify ps st)) = true.
Proof.
  induction ps as [|p ps IH] using rev_ind; intros Hps Hst.
  - exact Hst.
  - rewrite forallb_app in Hps. apply andb_true_iff in Hps as [Hps Hp].
    simpl in Hp. rewrite andb_true_r in Hp.
    rewrite updates_snoc, updateBranding_record.
    apply merge_keeps_populated; auto.
Qed.

Lemma defaultBranding_populated : is_BrandingConfig defaultBranding = true.
Proof. vm_compute. reflexivity. Qed.

(** (C2, as amended) Starting from the compiled-in defaults, after any
    sequence of updates each of which holds, for every key it supplies, a
    complete value of that key's declared type, the record has every
    [BrandingConfig] key populated and all seven [ColorScheme] keys for
    both variants. *)
Theorem updates_keep_record_populated (ps : list obj)
    (ls : gmap string jsstring) (d : Dom) :
  forallb is_PartialBranding ps = true →
  is_BrandingConfig
    (branding (updates JSON_stringify ps (initial ls d))) = true.
Proof.
  intros Hps. apply updates_populated; [exact Hps|].
  apply defaultBranding_populated.
Qed.

Lemma applyBrandingToDOM_defaults (d : Dom) :
  is_Some (applyBrandingToDOM defaultBranding d).
Proof.
  destruct d as [dark icon cs]. destruct dark; vm_compute; eauto.
Qed.

(** (C3) After any sequence of [updateBranding] calls, from any state,
    [resetBranding] leaves the record equal to [defaultBranding], leaves
    no ["branding"] entry in the storage, and completes normally. *)
Theorem resetBranding_restores_defaults (ps : list obj) (st : HookState) :
  let r := resetBranding (updates JSON_stringify ps st) in
  branding r.1 = defaultBranding
  ∧ localStorage r.1 !! "branding" = None
  ∧ r.2 = Normal.
Proof.
  cbv zeta. unfold resetBranding, apply_last.
  destruct (applyBrandingToDOM_defaults
              (document (removeItem "branding"
                 (setBranding defaultBranding
                    (updates JSON_stringify ps st))))) as [d' ->].
  simpl. rewrite lookup_delete_eq. auto.
Qed.

End BrandingFacts.


(** (C2, as stated) Fails for the one-element sequence [primary_only], which
    leaves the dark scheme and six light colours undefined, and for
    [undefined_name], which leaves [appName] undefined. *)
Lemma updates_lose_color_keys :
  Branding.is_BrandingConfig
    (Branding.branding
       (Branding.updates (λ _, []) [Branding.primary_only]
          Branding.fresh)) = false
  ∧ member (get (Branding.branding
                   (Branding.updates (λ _, []) [Branding.primary_only]
                      Branding.fresh)) "colors") "dark" = Some VUndef
  ∧ Branding.is_BrandingConfig
      (Branding.branding
         (Branding.updates (λ _, []) [Branding.undefined_name]
            Branding.fresh)) = false.
Proof. repeat split; vm_compute; reflexivity. Qed.

Lemma updates_keep_record_populated_witness :
  forallb Branding.is_PartialBranding [Branding.rename_override] = true
  ∧ Branding.is_BrandingConfig
      (Branding.branding
         (Branding.updates (λ _, []) [Branding.rename_override]
            Branding.fresh)) = true.
Proof.
  split; [vm_compute; reflexivity|].
  apply (updates_keep_record_populated (λ _, [])
           [Branding.rename_override]).
  vm_compute; reflexivity.
Defined.

(** ** The API client *)

Section ApiFacts.

Import Api.

Variable T : Type.
Variable network : jsstring → FetchInit → promise (Response T).
Variable timer_lateness : N.
Variable abort_message : jsstring.

Local Abbreviation request := (request T network timer_lateness abort_message).
Local Abbreviation request_catch := (request_catch T).
Local Abbreviation AbortError := (AbortError abort_message).
Local Abbreviation timer_fires := (timer_fires timer_lateness).

Lemma catch_AbortError : request_catch AbortError = Throws timeout_error.
Proof. reflexivity. Qed.

(** Any thrown value that is not named [AbortError] passes the [catch]
    block unchanged. *)
Lemma catch_rethrows (e : Thrown) :
  name e ≠ js "AbortError" → request_catch e = Throws e.
Proof.
  intros Hn. unfold Api.request_catch.
  rewrite (bool_decide_eq_false_2 _ Hn), andb_false_r. reflexivity.
Qed.

Lemma http_error_distinct (response : Response T) :
  http_error T response ≠ timeout_error.
Proof.
  intros H. apply (f_equal (λ e, head (message e))) in H.
  vm_compute in H. discriminate H.
Qed.

(** The callback of the timer runs no sooner than the delay. *)
Lemma timer_fires_late (delay : N) : (delay ≤ timer_fires delay)%N.
Proof. unfold Api.timer_fires. lia. Qed.

Lemma unanswered_aborts (this : ApiClient) (endpoint : jsstring)
    (options : RequestInit) :
  unanswered (timer_fires (client_timeout this))
    (network (request_url this endpoint) (request_init options)) = true →
  fetch_with_abort T network timer_lateness abort_message
    (client_timeout this) (request_url this endpoint)
    (request_init options) = inl AbortError.
Proof.
  unfold unanswered, fetch_with_abort.
  destruct (network _ _) as [t r|]; [|reflexivity].
  destruct (t <? _)%N; [discriminate|reflexivity].
Qed.

(** A fetch that the timer aborts surfaces as the timeout error. *)
Lemma request_aborted (this : ApiClient) (endpoint : jsstring)
    (options : RequestInit) :
  unanswered (timer_fires (client_timeout this))
    (network (request_url this endpoint) (request_init options)) = true →
  request this endpoint options = Throws timeout_error.
Proof.
  intros Hlate. unfold Api.request.
  rewrite (unanswered_aborts _ _ _ Hlate). apply catch_AbortError.
Qed.

(** A non-ok answer that comes before the timer fires surfaces as the
    HTTP error. *)
Lemma request_http_error (this : ApiClient) (endpoint : jsstring)
    (options : RequestInit) (t : N) (response : Response T) :
  network (request_url this endpoint) (request_init options)
  = Settles t (inr response) →
  (t < timer_fires (client_timeout this))%N →
  ok T response = false →
  request this endpoint options = Throws (http_error T response).
Proof.
  intros Hn Ht Hok. unfold Api.request, fetch_with_abort.
  rewrite Hn. apply N.ltb_lt in Ht. rewrite Ht, Hok. simpl.
  apply catch_rethrows. vm_compute. discriminate.
Qed.

(** A transport failure that comes before the timer fires is thrown on
    unchanged. *)
Lemma request_transport_error (this : ApiClient) (endpoint : jsstring)
    (options : RequestInit) (t : N) (e : Thrown) :
  network (request_url this endpoint) (request_init options)
  = Settles t (inl e) →
  (t < timer_fires (client_timeout this))%N →
  name e ≠ js "AbortError" →
  request this endpoint options = Throws e.
Proof.
  intros Hn Ht He. unfold Api.request, fetch_with_abort.
  rewrite Hn. apply N.ltb_lt in Ht. rewrite Ht.
  apply catch_rethrows, He.
Qed.


(** The timer is cleared once the headers are in: a body that never
    arrives leaves the call pending, without a timeout error. *)
Lemma request_stalled_body (this : ApiClient) (endpoint : jsstring)
    (options : RequestInit) (t : N) (response : Response T) :
  network (request_url this endpoint) (request_init options)
  = Settles t (inr response) →
  (t < timer_fires (client_timeout this))%N →
  ok T response = true →
  json T response = Never →
  request this endpoint options = Pending.
Proof.
  intros Hn Ht Hok Hj. unfold Api.request, fetch_with_abort.
  rewrite Hn. apply N.ltb_lt in Ht. rewrite Ht, Hok, Hj. reflexivity.
Qed.

(** An ok answer before the timer fires whose body parses is returned. *)
Lemma request_returns (this : ApiClient) (endpoint : jsstring)
    (options : RequestInit) (t t' : N) (response : Response T) (v : T) :
  network (request_url this endpoint) (request_init options)
  = Settles t (inr response) →
  (t < timer_fires (client_timeout this))%N →
  ok T response = true →
  json T response = Settles t' (inr v) →
  request this endpoint options = Returns v.
Proof.
  intros Hn Ht Hok Hj. unfold Api.request, fetch_with_abort.
  rewrite Hn. apply N.ltb_lt in Ht. rewrite Ht, Hok, Hj. reflexivity.
Qed.

End ApiFacts.



(** ** Input sanitization *)

Section SanitizeFacts.

Lemma trimStart_suffix (s : jsstring) : ∃ ws, s = ws ++ trimStart s.
Proof.
  induction s as [|c s [ws IH]]; [by exists []|].
  simpl. destruct (is_ws c).
  - exists (c :: ws). simpl. by rewrite <- IH.
  - by exists [].
Qed.

Lemma trimStart_elem (s : jsstring) (x : N) : x ∈ trimStart s → x ∈ s.
Proof.
  destruct (trimStart_suffix s) as [ws Hs]. intros Hx.
  rewrite Hs. apply elem_of_app. by right.
Qed.

Lemma trimStart_head (s : jsstring) (c : N) :
  head (trimStart s) = Some c → is_ws c = false.
Proof.
  induction s as [|a s IH]; simpl; [discriminate|].
  destruct (is_ws a) eqn:Ha; [exact IH|].
  simpl. intros [= <-]. exact Ha.
Qed.

Lemma trimStart_last (s : jsstring) (c : N) :
  last (trimStart s) = Some c → last s = Some c.
Proof.
  destruct (trimStart_suffix s) as [ws Hs]. intros Hl.
  rewrite Hs. destruct (trimStart s) as [|a t] eqn:Ht; [discriminate|].
  rewrite last_app, Hl. reflexivity.
Qed.

Lemma trim_elem (s : jsstring) (x : N) : x ∈ trim s → x ∈ s.
Proof.
  unfold trim. rewrite elem_of_reverse. intros H.
  apply trimStart_elem in H.
  rewrite elem_of_reverse in H. by apply trimStart_elem.
Qed.

Lemma trim_head (s : jsstring) (c : N) :
  head (trim s) = Some c → is_ws c = false.
Proof.
  unfold trim. rewrite head_reverse. intros H%trimStart_last.
  rewrite last_reverse in H. by apply trimStart_head in H.
Qed.

Lemma trim_last (s : jsstring) (c : N) :
  last (trim s) = Some c → is_ws c = false.
Proof. unfold trim. rewrite last_reverse. apply trimStart_head. Qed.

Lemma remove_ci_elem (pat : jsstring) (s : jsstring) :
  ∀ (skip : nat) (x : N), x ∈ remove_ci pat skip s → x ∈ s.
Proof.
  induction s as [|c s IH]; intros skip x; simpl; [done|].
  destruct skip as [|k].
  - destruct (starts_with_ci pat (c :: s)).
    + intros H%IH. by right.
    + intros [->|H%IH]%elem_of_cons; [left|by right].
  - intros H%IH. by right.
Qed.

Lemma remove_handlers_elem (s : jsstring) :
  ∀ (skip : nat) (x : N), x ∈ remove_handlers skip s → x ∈ s.
Proof.
  induction s as [|c s IH]; intros skip x; simpl; [done|].
  destruct skip as [|k].
  - destruct (handler_match (c :: s)).
    + intros H%IH. by right.
    + intros [->|H%IH]%elem_of_cons; [left|by right].
  - intros H%IH. by right.
Qed.

Lemma remove_angle_elem (s : jsstring) (x : N) :
  x ∈ remove_angle s → x ≠ code "<" ∧ x ≠ code ">".
Proof. unfold remove_angle. by intros [H _]%list_elem_of_filter. Qed.

(** (C10) For every input, the result of [sanitizeInput] holds neither
    [<] nor [>], and neither its first nor its last code unit is white
    space. *)
Theorem sanitizeInput_clean (input : jsstring) :
  (code "<" ∉ sanitizeInput input)
  ∧ (code ">" ∉ sanitizeInput input)
  ∧ (∀ c, head (sanitizeInput input) = Some c → is_ws c = false)
  ∧ (∀ c, last (sanitizeInput input) = Some c → is_ws c = false).
Proof.
  assert (∀ x, x ∈ sanitizeInput input → x ≠ code "<" ∧ x ≠ code ">")
    as Hsub.
  { intros x Hx. unfold sanitizeInput in Hx.
    apply trim_elem, remove_handlers_elem, remove_ci_elem in Hx.
    by apply remove_angle_elem in Hx. }
  repeat split.
  - intros H. by destruct (Hsub _ H) as [? _].
  - intros H. by destruct (Hsub _ H) as [_ ?].
  - intros c. apply trim_head.
  - intros c. apply trim_last.
Qed.

End SanitizeFacts.

(** ** File validation and the drop handler *)

Section UploadFacts.

Import DocumentUpload.

Variable toLowerCase : jsstring → jsstring.
Variable Number_toString : Q → jsstring.
Variable appConfig : AppConfig.
Variable ticks : nat → Tick.

Local Abbreviation forEach :=
  (forEach toLowerCase Number_toString appConfig ticks).
Local Abbreviation onDrop :=
  (onDrop toLowerCase Number_toString appConfig ticks).
Local Abbreviation type_ok file :=
  (validateFileType toLowerCase file (allowedTypes (fileUpload appConfig))).
Local Abbreviation size_ok file :=
  (validateFileSize file (maxSize (fileUpload appConfig))).
Local Abbreviation size_message :=
  (size_message Number_toString appConfig).

(** *** The extension the code computes *)

Lemma split_without_sep (sep : N) (s : jsstring) :
  after_final sep s = None → split sep s = [s].
Proof.
  induction s as [|c s IH]; simpl; [reflexivity|].
  destruct (after_final sep s); [discriminate|].
  destruct (c =? sep)%N; [discriminate|].
  intros _. rewrite IH; reflexivity.
Qed.

Lemma split_with_sep (sep : N) (s t : jsstring) :
  after_final sep s = Some t →
  ∃ seg segs, split sep s = seg :: segs ++ [t].
Proof.
  revert t. induction s as [|c s IH]; intros t; simpl; [discriminate|].
  destruct (after_final sep s) as [t'|] eqn:Ha.
  - intros [= <-]. destruct (IH t' eq_refl) as (seg & segs & ->).
    destruct (c =? sep)%N.
    + exists [], (seg :: segs). reflexivity.
    + exists (c :: seg), segs. reflexivity.
  - destruct (c =? sep)%N; [|discriminate].
    intros [= <-]. rewrite (split_without_sep _ _ Ha).
    exists [], []. reflexivity.
Qed.

(** The segment [split('.').pop()] yields is the text after the final
    dot; for a name without a dot it is the whole name. *)
Lemma fileExtension_after_final (file : File) :
  fileExtension toLowerCase file
  = code "." :: toLowerCase (extension (file_name file)).
Proof.
  unfold fileExtension, extension.
  destruct (after_final (code ".") (file_name file)) as [t|] eqn:Ha.
  - destruct (split_with_sep _ _ _ Ha) as (seg & segs & ->).
    rewrite app_comm_cons, last_snoc. reflexivity.
  - rewrite (split_without_sep _ _ Ha). reflexivity.
Qed.

Lemma validateFileType_name (f g : File) :
  file_name f = file_name g → type_ok f = type_ok g.
Proof.
  intros H. unfold validateFileType, fileExtension. rewrite H. reflexivity.
Qed.

(** *** The loop *)

Lemma forEach_acc (files : list File) :
  ∀ (i : nat) (docs : list Document) (log : list Effect),
    forEach files i docs log
    = (docs ++ (forEach files i [] []).1, log ++ (forEach files i [] []).2).
Proof.
  induction files as [|file rest IH]; intros i docs log; simpl.
  - rewrite !app_nil_r. reflexivity.
  - destruct (type_ok file); simpl.
    + destruct (size_ok file); simpl.
      * rewrite (IH _ (docs ++ _) (log ++ _)), (IH _ [_] [_]). simpl.
        rewrite <- !app_assoc. reflexivity.
      * rewrite (IH _ docs (log ++ _)), (IH _ [] [_]). simpl.
        rewrite <- !app_assoc. reflexivity.
    + rewrite (IH _ docs (log ++ _)), (IH _ [] [_]). simpl.
      rewrite <- !app_assoc. reflexivity.
Qed.

Lemma onDrop_unfold (documents : list Document) (files : list File) :
  onDrop documents files
  = (documents ++ (forEach files 0 [] []).1, (forEach files 0 [] []).2).
Proof.
  unfold DocumentUpload.onDrop.
  destruct (forEach files 0 [] []) as [[|d ds] log]; simpl.
  - rewrite app_nil_r. reflexivity.
  - reflexivity.
Qed.

(** Every document the loop adds comes from a file that passed both
    checks. *)
Lemma forEach_added (files : list File) :
  ∀ (i : nat) (d : Document),
    d ∈ (forEach files i [] []).1 →
    ∃ file j, file ∈ files ∧ type_ok file = true ∧ size_ok file = true
              ∧ d = new_document file (ticks j).
Proof.
  induction files as [|file rest IH]; intros i d; simpl; [by intros ?%elem_of_nil|].
  destruct (type_ok file) eqn:Ht; simpl.
  - destruct (size_ok file) eqn:Hs; simpl; rewrite forEach_acc; simpl.
    + intros [->|Hd]%elem_of_cons.
      * exists file, i. repeat split; auto. left.
      * destruct (IH _ _ Hd) as (g & j & Hg & ?).
        exists g, j. split; [by right|done].
    + intros Hd. destruct (IH _ _ Hd) as (g & j & Hg & ?).
      exists g, j. split; [by right|done].
  - rewrite forEach_acc. simpl.
    intros Hd. destruct (IH _ _ Hd) as (g & j & Hg & ?).
    exists g, j. split; [by right|done].
Qed.

(** Every upload the loop starts is for a file that passed both checks. *)
Lemma forEach_started (files : list File) :
  ∀ (i : nat) (documentId : jsstring) (f : File),
    SimulateUpload documentId f ∈ (forEach files i [] []).2 →
    f ∈ files ∧ type_ok f = true ∧ size_ok f = true.
Proof.
  induction files as [|file rest IH]; intros i documentId f; simpl;
    [by intros ?%elem_of_nil|].
  destruct (type_ok file) eqn:Ht; simpl.
  - destruct (size_ok file) eqn:Hs; simpl; rewrite forEach_acc; simpl.
    + intros [[= -> ->]|Hd]%elem_of_cons.
      * split; [left|done].
      * destruct (IH _ _ _ Hd) as (Hg & ?). split; [by right|done].
    + intros [[=]|Hd]%elem_of_cons.
      destruct (IH _ _ _ Hd) as (Hg & ?). split; [by right|done].
  - rewrite forEach_acc; simpl.
    intros [[=]|Hd]%elem_of_cons.
    destruct (IH _ _ _ Hd) as (Hg & ?). split; [by right|done].
Qed.

(** What the loop does with a dropped file, by the checks it passes. *)
Lemma forEach_verdict (files : list File) (file : File) :
  file ∈ files →
  ∀ i : nat,
    let log := (forEach files i [] []).2 in
    if type_ok file
    then if size_ok file
         then ∃ j, SimulateUpload (id (new_document file (ticks j))) file
                   ∈ log
         else Alert (size_message file) ∈ log
    else Alert (type_message file) ∈ log.
Proof.
  induction files as [|g rest IH]; [by intros ?%elem_of_nil|].
  intros [<-|Hin]%elem_of_cons i; cbv zeta.
  - simpl. destruct (type_ok file) eqn:Ht; simpl.
    + destruct (size_ok file) eqn:Hs; simpl; rewrite forEach_acc; simpl.
      * exists i. left.
      * left.
    + rewrite forEach_acc; simpl. left.
  - specialize (IH Hin (S i)). cbv zeta in IH.
    assert (∀ e, (forEach (g :: rest) i [] []).2
                 = e :: (forEach rest (S i) [] []).2
                 → ∀ x, x ∈ (forEach rest (S i) [] []).2
                        → x ∈ (forEach (g :: rest) i [] []).2) as Hmono.
    { intros e -> x Hx. by right. }
    assert (∃ e, (forEach (g :: rest) i [] []).2
                 = e :: (forEach rest (S i) [] []).2) as [e He].
    { simpl. destruct (type_ok g); simpl;
        [destruct (size_ok g); simpl|];
        rewrite forEach_acc; simpl; eauto. }
    destruct (type_ok file); [destruct (size_ok file)|].
    + destruct IH as [j Hj]. exists j. by apply (Hmono e He).
    + by apply (Hmono e He).
    + by apply (Hmono e He).
Qed.

Lemma validateFileType_extension (file : File) :
  type_ok file
  = bool_decide (code "." :: toLowerCase (extension (file_name file))
                 ∈ allowedTypes (fileUpload appConfig)).
Proof.
  unfold validateFileType. rewrite fileExtension_after_final. reflexivity.
Qed.

(** (C5, as amended) A dropped file whose lower-cased extension (the
    text after the final dot of its name; the whole name when it has no
    dot), with the dot in front, is not in [allowedTypes] gets no
    document in the list [onDrop] produces and no upload is started for
    it; the handler has no other way to start one.  The refusal is
    announced. *)
Theorem onDrop_rejects_disallowed_type (documents : list Document)
    (acceptedFiles : list File) (file : File) :
  file ∈ acceptedFiles →
  (code "." :: toLowerCase (extension (file_name file))
   ∉ allowedTypes (fileUpload appConfig)) →
  ∃ added,
    (onDrop documents acceptedFiles).1 = documents ++ added
    ∧ (∀ d, d ∈ added → name d ≠ file_name file)
    ∧ (∀ documentId,
         SimulateUpload documentId file ∉ (onDrop documents acceptedFiles).2)
    ∧ Alert (type_message file) ∈ (onDrop documents acceptedFiles).2.
Proof.
  intros Hin Hext.
  assert (type_ok file = false) as Hbad.
  { rewrite validateFileType_extension. by apply bool_decide_eq_false. }
  rewrite onDrop_unfold. simpl.
  exists (forEach acceptedFiles 0 [] []).1. split; [reflexivity|].
  split; [|split].
  - intros d Hd Hname.
    destruct (forEach_added _ _ _ Hd) as (g & j & _ & Hg & _ & ->).
    simpl in Hname. rewrite (validateFileType_name g file Hname) in Hg.
    congruence.
  - intros documentId Hup.
    destruct (forEach_started _ _ _ _ Hup) as (_ & Hok & _). congruence.
  - pose proof (forEach_verdict _ _ Hin 0) as Hv.
    cbv zeta in Hv. by rewrite Hbad in Hv.
Qed.

(** (C6, as amended) A dropped file larger than [maxSize] is never added
    to the list and no upload is started for it; when its type is allowed
    it is rejected with the message that states the maximum size, and
    otherwise the type check, which runs first, rejects it with the
    message about the type.  A dropped file within the limit passes the
    size check, and is uploaded when its type is allowed. *)
Theorem onDrop_rejects_oversize (documents : list Document)
    (acceptedFiles : list File) :
  (∀ file, file ∈ acceptedFiles →
     (maxSize (fileUpload appConfig) < file_size file)%Z →
     (∃ added,
        (onDrop documents acceptedFiles).1 = documents ++ added
        ∧ ∀ d, d ∈ added → size d ≠ file_size file)
     ∧ (∀ documentId,
          SimulateUpload documentId file
          ∉ (onDrop documents acceptedFiles).2)
     ∧ (type_ok file = true →
        Alert (size_message file) ∈ (onDrop documents acceptedFiles).2)
     ∧ (type_ok file = false →
        Alert (type_message file) ∈ (onDrop documents acceptedFiles).2))
  ∧ (∀ g, g ∈ acceptedFiles →
       (file_size g ≤ maxSize (fileUpload appConfig))%Z →
       size_ok g = true
       ∧ (type_ok g = true →
          ∃ documentId,
            SimulateUpload documentId g
            ∈ (onDrop documents acceptedFiles).2)).
Proof.
  rewrite onDrop_unfold. simpl. split.
  - intros file Hin Hbig.
    assert (size_ok file = false) as Hs.
    { unfold validateFileSize. apply Z.leb_gt. exact Hbig. }
    pose proof (forEach_verdict _ _ Hin 0) as Hv. cbv zeta in Hv.
    split; [|split; [|split]].
    + exists (forEach acceptedFiles 0 [] []).1. split; [reflexivity|].
      intros d Hd Hsize.
      destruct (forEach_added _ _ _ Hd) as (g & j & _ & _ & Hg & ->).
      simpl in Hsize. unfold validateFileSize in Hg.
      apply Z.leb_le in Hg. lia.
    + intros documentId Hup.
      destruct (forEach_started _ _ _ _ Hup) as (_ & _ & Hok). congruence.
    + intros Ht. by rewrite Ht, Hs in Hv.
    + intros Ht. by rewrite Ht in Hv.
  - intros g Hg Hsmall.
    assert (size_ok g = true) as Hgs.
    { unfold validateFileSize. by apply Z.leb_le. }
    split; [exact Hgs|].
    intros Ht. pose proof (forEach_verdict _ _ Hg 0) as Hv.
    cbv zeta in Hv. rewrite Ht, Hgs in Hv.
    destruct Hv as [j Hj]. eauto.
Qed.

End UploadFacts.

Lemma onDrop_rejects_disallowed_type_witness :
  Samples.big_scan ∈ [Samples.small_txt; Samples.big_scan]
  ∧ (code "." :: ascii_toLowerCase (extension (file_name Samples.big_scan))
     ∉ allowedTypes (fileUpload Samples.config))
  ∧ ∃ added,
      (DocumentUpload.onDrop ascii_toLowerCase Samples.whole_toString
         Samples.config Samples.ticks []
         [Samples.small_txt; Samples.big_scan]).1 = [] ++ added
      ∧ (∀ d, d ∈ added
              → DocumentUpload.name d ≠ file_name Samples.big_scan)
      ∧ (∀ documentId,
           DocumentUpload.SimulateUpload documentId Samples.big_scan
           ∉ (DocumentUpload.onDrop ascii_toLowerCase Samples.whole_toString
                Samples.config Samples.ticks []
                [Samples.small_txt; Samples.big_scan]).2)
      ∧ DocumentUpload.Alert (DocumentUpload.type_message Samples.big_scan)
        ∈ (DocumentUpload.onDrop ascii_toLowerCase Samples.whole_toString
             Samples.config Samples.ticks []
             [Samples.small_txt; Samples.big_scan]).2.
Proof.
  assert (Samples.big_scan ∈ [Samples.small_txt; Samples.big_scan]) as Hin
    by (right; left).
  assert (code "." :: ascii_toLowerCase
                        (extension (file_name Samples.big_scan))
          ∉ allowedTypes (fileUpload Samples.config)) as Hext.
  { apply (bool_decide_eq_false_1 _). vm_compute. reflexivity. }
  split; [exact Hin|]. split; [exact Hext|].
  apply (onDrop_rejects_disallowed_type ascii_toLowerCase
           Samples.whole_toString Samples.config Samples.ticks []
           [Samples.small_txt; Samples.big_scan] Samples.big_scan Hin Hext).
Defined.

(** (C5, as stated) Fails for a file whose name has no dot and spells
    an allowed extension: no text follows a final dot, so the file has
    no extension that could be a member of [allowedTypes] (neither its
    name nor a bare dot is one), and yet it is listed and its upload is
    started. *)
Lemma onDrop_accepts_dotless_name :
  after_final (code ".") (file_name MoreSamples.dotless_txt) = None
  ∧ (file_name MoreSamples.dotless_txt
     ∉ allowedTypes (fileUpload Samples.config))
  ∧ ([code "."] ∉ allowedTypes (fileUpload Samples.config))
  ∧ ∃ d,
      DocumentUpload.onDrop ascii_toLowerCase Samples.whole_toString
        Samples.config Samples.ticks [] [MoreSamples.dotless_txt]
      = ([d], [DocumentUpload.SimulateUpload (DocumentUpload.id d)
                 MoreSamples.dotless_txt])
      ∧ DocumentUpload.name d = file_name MoreSamples.dotless_txt.
Proof.
  split; [vm_compute; reflexivity|]. split; [|split].
  - apply (bool_decide_eq_false_1 _). vm_compute. reflexivity.
  - apply (bool_decide_eq_false_1 _). vm_compute. reflexivity.
  - exists (DocumentUpload.new_document MoreSamples.dotless_txt
              (Samples.ticks 0)).
    split; vm_compute; reflexivity.
Qed.

(** (C6, as stated) Fails for a file that is too large and of a type that
    is not allowed: the only message is the one about the type, which does
    not state the maximum size. *)
Lemma onDrop_oversize_disallowed_type :
  (maxSize (fileUpload Samples.config) < file_size Samples.big_scan)%Z
  ∧ (DocumentUpload.onDrop ascii_toLowerCase Samples.whole_toString
       Samples.config Samples.ticks [] [Samples.big_scan]).2
    = [DocumentUpload.Alert (DocumentUpload.type_message Samples.big_scan)]
  ∧ DocumentUpload.Alert
      (DocumentUpload.size_message Samples.whole_toString Samples.config
         Samples.big_scan)
    ∉ (DocumentUpload.onDrop ascii_toLowerCase Samples.whole_toString
         Samples.config Samples.ticks [] [Samples.big_scan]).2.
Proof.
  split; [vm_compute; reflexivity|].
  split; [vm_compute; reflexivity|].
  intros H. vm_compute in H. apply list_elem_of_singleton in H.
  discriminate H.
Qed.

(** A text file within the limit dropped alone, and a PDF file over
    the limit dropped with it. *)
Lemma onDrop_rejects_oversize_witness :
  (∃ documentId,
     DocumentUpload.SimulateUpload documentId Samples.small_txt
     ∈ (DocumentUpload.onDrop ascii_toLowerCase Samples.whole_toString
          Samples.config Samples.ticks [] [Samples.small_txt]).2)
  ∧ DocumentUpload.Alert
      (DocumentUpload.size_message Samples.whole_toString Samples.config
         Samples.big_pdf)
    ∈ (DocumentUpload.onDrop ascii_toLowerCase Samples.whole_toString
         Samples.config Samples.ticks []
         [Samples.big_pdf; Samples.small_txt]).2.
Proof.
  split.
  - refine (proj2 (proj2 (onDrop_rejects_oversize ascii_toLowerCase
                            Samples.whole_toString Samples.config
                            Samples.ticks [] [Samples.small_txt])
                     Samples.small_txt _ _) _);
      [left|vm_compute; discriminate|vm_compute; reflexivity].
  - refine (proj1 (proj2 (proj2 (proj1 (onDrop_rejects_oversize
              ascii_toLowerCase Samples.whole_toString Samples.config
              Samples.ticks [] [Samples.big_pdf; Samples.small_txt])
              Samples.big_pdf _ _))) _);
      [left|vm_compute; reflexivity|vm_compute; reflexivity].
Defined.

(** The size message of the sample configuration reads ten megabytes. *)
Example size_message_sample :
  DocumentUpload.size_message Samples.whole_toString Samples.config
    Samples.big_pdf
  = js "Arquivo muito grande: big.pdf. Tamanho máximo: 10MB".
Proof. vm_compute. reflexivity. Qed.

(** A file named like an extension, without a dot, passes the type check. *)
Example validateFileType_dotless :
  validateFileType ascii_toLowerCase (mkFile (js "PDF") [] 1%Z)
    (allowedTypes (fileUpload Samples.config)) = true.
Proof. vm_compute. reflexivity. Qed.

(** ** The case search *)

Section CaseSearchFacts.

Import CaseSearch.

Lemma trimStart_blank (s : jsstring) :
  Forall (λ c, is_ws c = true) s → trimStart s = [].
Proof.
  induction 1 as [|c s Hc _ IH]; simpl; [reflexivity|].
  rewrite Hc. exact IH.
Qed.

Lemma trim_blank (s : jsstring) :
  Forall (λ c, is_ws c = true) s → trim s = [].
Proof. intros H. unfold trim. rewrite (trimStart_blank s H). reflexivity. Qed.

(** (C7) Submitting the search with a case number that is empty or holds
    white space only makes one setter call, [setError] with the validation
    message: the simulated request is not started, [setIsSearching] and
    [setCaseInfo] are not called, so [caseInfo] and [isSearching] keep
    their values. *)
Theorem handleSearch_blank_case_number (courts : list Court) (now : Z)
    (st : State) :
  Forall (λ c, is_ws c = true) (caseNumber st) →
  handleSearch st = ([setError validation_message], false)
  ∧ error (search courts now st) = validation_message
  ∧ caseInfo (search courts now st) = caseInfo st
  ∧ isSearching (search courts now st) = isSearching st.
Proof.
  intros Hblank.
  assert (handleSearch st = ([setError validation_message], false)) as Hh.
  { unfold handleSearch. rewrite (trim_blank _ Hblank). reflexivity. }
  split; [exact Hh|].
  unfold search. rewrite Hh. simpl. auto.
Qed.

(** With a case number and a court, the search runs and fills [caseInfo]. *)
Lemma search_runs (courts : list Court) (now : Z) (st : State) :
  trim (caseNumber st) ≠ [] → selectedCourt st ≠ [] →
  caseInfo (search courts now st)
  = Some (mockCaseInfo courts (caseNumber st) (selectedCourt st) now)
  ∧ isSearching (search courts now st) = false
  ∧ error (search courts now st) = [].
Proof.
  intros Hn Hc. unfold search, handleSearch.
  destruct (trim (caseNumber st)) as [|a t]; [done|].
  destruct (selectedCourt st) as [|b u] eqn:Hs; [done|].
  simpl. rewrite Hs. auto.
Qed.

End CaseSearchFacts.

Lemma handleSearch_blank_case_number_witness :
  Forall (λ c, is_ws c = true) (CaseSearch.caseNumber Samples.blank_search)
  ∧ CaseSearch.handleSearch Samples.blank_search
    = ([CaseSearch.setError CaseSearch.validation_message], false).
Proof.
  assert (Forall (λ c, is_ws c = true)
            (CaseSearch.caseNumber Samples.blank_search)) as Hblank.
  { repeat constructor. }
  split; [exact Hblank|].
  apply (handleSearch_blank_case_number [] 0%Z Samples.blank_search Hblank).
Defined.

(** ** The chat *)

Section ChatFacts.

Import MainPage.

(** (C8) Whatever the message list holds, [clearChat] leaves exactly one
    message: the greeting, of type [assistant], whose text carries the
    [appName] of the branding the page was rendered with. *)
Theorem clearChat_single_greeting (branding : obj) (now : Z) (st : State) :
  ∃ m, messages (clearChat branding now st) = [m]
       ∧ type m = assistant
       ∧ content m
         = js "Olá! Sou o " ++ ToString (get branding "appName")
           ++ js ", seu assistente jurídico inteligente. Como posso ajudá-lo hoje?".
Proof. exists (greeting branding now). repeat split. Qed.

(** Sending appends; only [clearChat] shortens the list. *)
Lemma handleSendMessage_grows (branding : obj) (now : N) (date : Z)
    (st : State) :
  length (messages st) ≤ length (messages (handleSendMessage now date st)).
Proof.
  unfold handleSendMessage.
  destruct (CaseSearch.falsy _); simpl; [lia|].
  rewrite length_app. lia.
Qed.

End ChatFacts.

(** ** Application start-up *)

Section AppFacts.

Import App.

(** No configuration and no client: kept by every event but a load that
    succeeds. *)
Lemma step_keeps_unconfigured (st : State) (e : Event) :
  match e with ConfigSettled f => load_failed f | _ => true end = true →
  appConfig st = None ∧ apiClient st = None →
  appConfig (step st e) = None ∧ apiClient (step st e) = None.
Proof.
  intros He [Hc Ha]. destruct e as [f| | |]; simpl; auto.
  destruct f as [err|ok body]; simpl in *; auto.
  destruct ok; [discriminate|]. auto.
Qed.

Lemma run_keeps_unconfigured (es : list Event) :
  ∀ st : State,
    failed_loads es = true →
    appConfig st = None ∧ apiClient st = None →
    appConfig (run es st) = None ∧ apiClient (run es st) = None.
Proof.
  induction es as [|e es IH]; intros st Hes Hst; [exact Hst|].
  simpl in Hes. apply andb_true_iff in Hes as [He Hes].
  simpl. apply IH; [exact Hes|].
  apply step_keeps_unconfigured; assumption.
Qed.

(** The routes are rendered with the loaded value only. *)
Lemma render_routes (st : State) (config : Loaded) (b : bool) :
  render st = Routes config b → appConfig st = Some config.
Proof.
  unfold render. destruct (appConfig st); [|discriminate].
  destruct (_ || _); [discriminate|]. by intros [= -> _].
Qed.

(** A body that parses to [null] assigns no client either: the
    constructor throws before the assignment, and the error is logged. *)
Lemma loadAppConfig_null (st : State) :
  appConfig st = None →
  appConfig (loadAppConfig (FetchResponds true (inr None)) st) = None
  ∧ apiClient (loadAppConfig (FetchResponds true (inr None)) st)
    = apiClient st
  ∧ console (loadAppConfig (FetchResponds true (inr None)) st)
    = console st ++ [null_TypeError].
Proof. intros _. repeat split. Qed.

(** A client, once assigned, was built from the [api] member of a
    loaded value. *)
Lemma loadAppConfig_client (f : ConfigFetch) (st : State)
    (client : Api.ApiClient) :
  apiClient st = None →
  apiClient (loadAppConfig f st) = Some client →
  ∃ config a, f = FetchResponds true (inr (Some config))
              ∧ loaded_api config = Some a
              ∧ client = Api.mkClient (baseUrl a) (timeout a).
Proof.
  intros Hnone.
  destruct f as [e|[|] [e|[[c|[a|]]|]]]; simpl; rewrite ?Hnone;
    try discriminate.
  - intros [= <-]. eauto.
  - intros [= <-]. eauto.
Qed.

(** (C9) When every attempt to load the configuration fails (the fetch is
    rejected or answers non-ok), then whatever else happens to the
    component, [appConfig] stays [null], the component renders the loading
    screen, and the API client stays unassigned.  In any state the routes
    are not rendered while [appConfig] is [null]. *)
Theorem failed_load_keeps_loading (es : list Event)
    (ls : gmap string jsstring) :
  failed_loads es = true →
  render (run es (initial ls)) = LoadingScreen
  ∧ appConfig (run es (initial ls)) = None
  ∧ apiClient (run es (initial ls)) = None
  ∧ (∀ st : State, appConfig st = None → render st = LoadingScreen).
Proof.
  intros Hes.
  destruct (run_keeps_unconfigured es (initial ls) Hes) as [Hc Ha];
    [split; reflexivity|].
  assert (∀ st : State, appConfig st = None → render st = LoadingScreen)
    as Hnull.
  { intros st Hst. unfold render. rewrite Hst. reflexivity. }
  split; [apply Hnull, Hc|]. split; [exact Hc|]. split; [exact Ha|].
  exact Hnull.
Qed.

End AppFacts.

Lemma failed_load_keeps_loading_witness :
  App.failed_loads
    [App.SetupChecked;
     App.ConfigSettled (App.FetchResponds false (inr None));
     App.BrandingLoaded; App.SetupCompleted] = true
  ∧ App.render
      (App.run
         [App.SetupChecked;
          App.ConfigSettled (App.FetchResponds false (inr None));
          App.BrandingLoaded; App.SetupCompleted] (App.initial ∅))
    = App.LoadingScreen.
Proof.
  split; [reflexivity|].
  exact (proj1 (failed_load_keeps_loading
                  [App.SetupChecked;
                   App.ConfigSettled (App.FetchResponds false (inr None));
                   App.BrandingLoaded; App.SetupCompleted] ∅ eq_refl)).
Defined.

(* ================================================================== *)
(** * Further properties of the code *)
(* ================================================================== *)

(** ** The branding hook *)

Section BrandingMore.

Import Branding.

Variable JSON_stringify : value → jsstring.

Lemma has_strings_inv (keys : list string) (v : value) :
  has_strings keys v = true →
  ∃ m, v = VObj m ∧ ∀ k, k ∈ keys → is_string (get m k) = true.
Proof.
  destruct v as [|s|m]; simpl; try discriminate.
  intros H. exists m. split; [reflexivity|].
  intros k Hk. rewrite forallb_forall in H. apply H.
  by apply list_elem_of_In.
Qed.

(** The two schemes of a populated record. *)
Lemma populated_scheme (b : obj) (dark : bool) :
  is_BrandingConfig b = true →
  ∃ sch, member (get b "colors") (if dark then "dark" else "light")
         = Some (VObj sch)
         ∧ ∀ k, k ∈ scheme_keys → is_string (get sch k) = true.
Proof.
  intros Hb. unfold is_BrandingConfig in Hb. rewrite forallb_forall in Hb.
  assert (field_ok "colors" (get b "colors") = true) as Hc.
  { apply Hb. apply list_elem_of_In. set_solver. }
  change (is_Colors (get b "colors") = true) in Hc.
  destruct (get b "colors") as [|s|m]; simpl in Hc; try discriminate.
  apply andb_true_iff in Hc as [Hl Hd].
  apply has_strings_inv in Hl as (l & Hl & Hlk).
  apply has_strings_inv in Hd as (dk & Hd & Hdk).
  destruct dark; simpl; [exists dk|exists l]; rewrite ?Hl, ?Hd; auto.
Qed.

Lemma applyBrandingToDOM_populated_some (b : obj) (d : Dom) :
  is_BrandingConfig b = true → is_Some (applyBrandingToDOM b d).
Proof.
  intros Hb.
  destruct (populated_scheme b (dark_class d) Hb) as (sch & Hsch & _).
  unfold applyBrandingToDOM. rewrite Hsch. simpl. eauto.
Qed.

(** The string keys of a populated record hold strings. *)
Lemma populated_string (b : obj) (k : string) :
  is_BrandingConfig b = true →
  k ∈ ["appName"; "tagline"; "logo"; "favicon"] →
  ∃ s, get b k = VStr s.
Proof.
  intros Hb Hk. unfold is_BrandingConfig in Hb. rewrite forallb_forall in Hb.
  assert (k = "appName" ∨ k = "tagline" ∨ k = "logo" ∨ k = "favicon")
    as Hcases.
  { apply list_elem_of_In in Hk. simpl in Hk. intuition. }
  assert (field_ok k (get b k) = true) as Hf.
  { apply Hb. simpl. intuition. }
  assert (field_ok k (get b k) = is_string (get b k)) as Hs
    by (destruct Hcases as [->|[->|[->| ->]]]; reflexivity).
  rewrite Hs in Hf. destruct (get b k) as [|s|m]; try discriminate. eauto.
Qed.

(** (X1) Applying a populated record cannot throw.  It appends exactly
    these writes, in this order: the seven custom properties
    [--color-primary], [--color-secondary], [--color-accent],
    [--color-background], [--color-surface], [--color-text] and
    [--color-text-secondary], each with the string the active scheme
    holds under its key (the dark scheme exactly when the page has the
    [dark] class); the title, which is the application name, [" - "] and
    the tagline; and, when the page has an icon link, its reference set
    to the favicon string of the record. *)
Theorem applyBrandingToDOM_populated (b : obj) (d : Dom) :
  is_BrandingConfig b = true →
  ∃ sch appName tagline favicon,
    member (get b "colors") (if dark_class d then "dark" else "light")
    = Some (VObj sch)
    ∧ get b "appName" = VStr appName
    ∧ get b "tagline" = VStr tagline
    ∧ get b "favicon" = VStr favicon
    ∧ Forall (λ k, is_string (get sch k) = true) scheme_keys
    ∧ applyBrandingToDOM b d
      = Some (mkDom (dark_class d) (icon_link d)
                (calls d ++
                 [SetProperty "--color-primary" (get sch "primary");
                  SetProperty "--color-secondary" (get sch "secondary");
                  SetProperty "--color-accent" (get sch "accent");
                  SetProperty "--color-background" (get sch "background");
                  SetProperty "--color-surface" (get sch "surface");
                  SetProperty "--color-text" (get sch "text");
                  SetProperty "--color-text-secondary"
                    (get sch "textSecondary");
                  SetTitle (appName ++ js " - " ++ tagline)] ++
                 (if icon_link d then [SetFaviconHref (VStr favicon)]
                  else []))).
Proof.
  intros Hb.
  destruct (populated_scheme b (dark_class d) Hb) as (sch & Hsch & Hk).
  destruct (populated_string b "appName" Hb) as [appName Ha];
    [apply list_elem_of_In; simpl; tauto|].
  destruct (populated_string b "tagline" Hb) as [tagline Ht];
    [apply list_elem_of_In; simpl; tauto|].
  destruct (populated_string b "favicon" Hb) as [favicon Hf];
    [apply list_elem_of_In; simpl; tauto|].
  exists sch, appName, tagline, favicon.
  split; [exact Hsch|]. split; [exact Ha|]. split; [exact Ht|].
  split; [exact Hf|]. split; [by apply Forall_forall|].
  unfold applyBrandingToDOM. rewrite Hsch, Ha, Ht, Hf. reflexivity.
Qed.

Variable accepts : gmap string jsstring → jsstring → bool.

Local Abbreviation updateBranding_from :=
  (updateBranding_from JSON_stringify accepts).
Local Abbreviation invocations := (invocations JSON_stringify accepts).

Lemma updateBranding_from_record (rendered p : obj) (st : HookState) :
  branding (updateBranding_from rendered p st).1 = p ∪ rendered.
Proof.
  unfold Branding.updateBranding_from, apply_last.
  destruct (accepts _ _); [|reflexivity].
  destruct (applyBrandingToDOM _ _); reflexivity.
Qed.

(** Where the storage accepts the text, the call of a render that has
    seen the state is the call [updateBranding] describes. *)
Lemma updateBranding_from_accepted (p : obj) (st : HookState) :
  accepts (localStorage st) (JSON_stringify (VObj (p ∪ branding st)))
  = true →
  updateBranding_from (branding st) p st = updateBranding JSON_stringify p st.
Proof.
  intros Ha. unfold Branding.updateBranding_from, updateBranding.
  rewrite Ha. reflexivity.
Qed.

Lemma invocations_snoc (cs : list (option obj * obj)) (c : option obj * obj)
    (st : HookState) :
  invocations (cs ++ [c]) st
  = (invoke JSON_stringify accepts c (invocations cs st)).1.
Proof. unfold Branding.invocations. rewrite foldl_app. reflexivity. Qed.

(** The sequence [updates] describes is the sequence of calls made in
    turn on a storage area that accepts every text. *)
Lemma invocations_in_turn (ps : list obj) (st : HookState) :
  (∀ ls text, accepts ls text = true) →
  invocations (in_turn ps) st = updates JSON_stringify ps st.
Proof.
  intros Ha. induction ps as [|p ps IH] using rev_ind; [reflexivity|].
  unfold in_turn. rewrite fmap_app. simpl. fold (in_turn ps).
  rewrite invocations_snoc, updates_snoc, IH. unfold invoke. simpl.
  by rewrite updateBranding_from_accepted.
Qed.

(** Whatever the quota and whichever populated render a call comes
    from, calls that are complete for the keys they supply keep the
    record populated. *)
Lemma invocations_keep_populated (cs : list (option obj * obj))
    (st : HookState) :
  Forall (λ c, is_PartialBranding c.2 = true
               ∧ ∀ b, c.1 = Some b → is_BrandingConfig b = true) cs →
  is_BrandingConfig (branding st) = true →
  is_BrandingConfig (branding (invocations cs st)) = true.
Proof.
  induction cs as [|c cs IH] using rev_ind; intros Hcs Hst; [exact Hst|].
  apply Forall_app in Hcs as [Hcs Hc].
  apply Forall_singleton in Hc as [Hp Hb].
  rewrite invocations_snoc. unfold invoke.
  rewrite updateBranding_from_record.
  apply merge_keeps_populated; [exact Hp|].
  destruct c as [[b|] p]; simpl in *; [by apply Hb|by apply IH].
Qed.

(** (X2) An update that is complete for the keys it supplies, made from
    a render with a populated record, never throws a TypeError and
    leaves the merged record, which is populated, in state.  When the
    storage accepts the text of that record the call completes
    normally, with the text stored and the record applied to the page;
    when the storage refuses it the call throws the storage's
    [QuotaExceededError], with the storage and the page as they
    were. *)
Theorem updateBranding_populated_completes (rendered p : obj)
    (st : HookState) :
  is_BrandingConfig rendered = true →
  is_PartialBranding p = true →
  let text := JSON_stringify (VObj (p ∪ rendered)) in
  let r := updateBranding_from rendered p st in
  branding r.1 = p ∪ rendered
  ∧ is_BrandingConfig (branding r.1) = true
  ∧ (accepts (localStorage st) text = true →
     r.2 = Normal
     ∧ localStorage r.1 = <["branding" := text]> (localStorage st)
     ∧ applyBrandingToDOM (p ∪ rendered) (document st)
       = Some (document r.1))
  ∧ (accepts (localStorage st) text = false →
     r.2 = ThrowsQuotaExceeded
     ∧ localStorage r.1 = localStorage st
     ∧ document r.1 = document st).
Proof.
  intros Hb Hp text r. subst text r.
  pose proof (merge_keeps_populated p rendered Hp Hb) as Hm.
  rewrite updateBranding_from_record.
  split; [reflexivity|]. split; [exact Hm|].
  unfold Branding.updateBranding_from, apply_last.
  destruct (accepts _ _); split; intros Ha; try discriminate Ha.
  - simpl.
    destruct (applyBrandingToDOM_populated_some (p ∪ rendered)
                (document st) Hm) as [d' ->]. auto.
  - auto.
Qed.

(** (X3) After a sequence of [updateBranding] calls, whichever render
    each was made from: when the storage accepted the text of the last
    call, its [branding] entry is the serialization of the record in
    state, whether or not the record could be applied to the page; when
    the storage refused it, the storage is what it was before that call,
    while the state holds the merged record. *)
Theorem updates_storage_in_sync (cs : list (option obj * obj))
    (c : option obj * obj) (st : HookState) :
  let before := invocations cs st in
  let after := invocations (cs ++ [c]) st in
  let text := JSON_stringify (VObj (branding after)) in
  (accepts (localStorage before) text = true →
   localStorage after !! "branding" = Some text)
  ∧ (accepts (localStorage before) text = false →
     localStorage after = localStorage before
     ∧ branding after = c.2 ∪ default (branding before) c.1).
Proof.
  intros before after text. subst before after text.
  rewrite invocations_snoc. unfold invoke.
  rewrite updateBranding_from_record.
  unfold Branding.updateBranding_from, apply_last.
  destruct (accepts _ _); split; intros Ha; try discriminate Ha.
  - destruct (applyBrandingToDOM _ _); simpl; apply lookup_insert_eq.
  - auto.
Qed.

(** (X4) A call spreads the record of the render it was made from:
    after it the record is its update laid over that render's record,
    so what the calls since that render have set is lost.  Over calls
    that each come from the render that follows the previous one, key
    by key the last update that supplies the key wins, and a key no
    update supplies keeps its value. *)
Theorem updates_last_wins (st : HookState) :
  (∀ (cs : list (option obj * obj)) (b q : obj),
     branding (invocations (cs ++ [(Some b, q)]) st) = q ∪ b)
  ∧ (∀ (ps : list obj) (k : string),
       branding (invocations (in_turn ps) st) !! k
       = match list_find (λ p, is_Some (p !! k)) (reverse ps) with
         | Some (_, p) => p !! k
         | None => branding st !! k
         end).
Proof.
  split.
  - intros cs b q. rewrite invocations_snoc. unfold invoke.
    apply updateBranding_from_record.
  - intros ps k. induction ps as [|p ps IH] using rev_ind; [reflexivity|].
    unfold in_turn. rewrite fmap_app. simpl.
    rewrite invocations_snoc. unfold invoke.
    rewrite updateBranding_from_record, reverse_snoc.
    rewrite lookup_union. simpl.
    destruct (decide (is_Some (p !! k))) as [[v Hv]|Hn].
    + rewrite Hv. simpl. destruct (_ !! k); reflexivity.
    + assert (p !! k = None) as Hnone.
      { destruct (p !! k) eqn:E; [|reflexivity]. exfalso. apply Hn. eauto. }
      fold (in_turn ps). rewrite Hnone, IH. simpl.
      destruct (list_find _ (reverse ps)) as [[i q]|]; simpl.
      * destruct (q !! k); reflexivity.
      * destruct (branding st !! k); reflexivity.
Qed.

End BrandingMore.

(** ** Loading the branding *)

Section LoadFacts.

Import Branding LoadBranding.

Variable JSON_parse : jsstring → Api.Thrown + value.
Variable JSON_stringify : value → jsstring.

Local Abbreviation loadBranding := (loadBranding JSON_parse).

(** (X5) With a saved override the server is not asked and loading ends: the
    record is the parsed override, or, when the saved text does not parse,
    the record in state with the SyntaxError logged. *)
Theorem loadBranding_saved_override (served : Served) (m : Mounted)
    (c : N) (saved : jsstring) :
  m_storage m !! "branding" = Some (c :: saved) →
  m_fetched (loadBranding served m) = m_fetched m
  ∧ m_isLoading (loadBranding served m) = false
  ∧ (∀ v, JSON_parse (c :: saved) = inr v →
          m_branding (loadBranding served m) = v
          ∧ m_warnings (loadBranding served m) = m_warnings m)
  ∧ (∀ e, JSON_parse (c :: saved) = inl e →
          m_branding (loadBranding served m) = m_branding m
          ∧ m_warnings (loadBranding served m) = m_warnings m ++ [e]).
Proof.
  intros Hs. unfold LoadBranding.loadBranding. rewrite Hs.
  destruct (JSON_parse (c :: saved)) as [e|v]; simpl.
  - repeat split; try congruence; intros ? [= <-]; reflexivity.
  - repeat split; try congruence; intros ? [= <-]; reflexivity.
Qed.

(** Without a saved override (none, or an empty text) the server is asked;
    the record changes only to the body of an ok answer, and loading ends
    exactly when the fetch and the body read settle. *)
Lemma loadBranding_without_override (served : Served) (m : Mounted) :
  m_storage m !! "branding" = None ∨ m_storage m !! "branding" = Some [] →
  m_fetched (loadBranding served m) = true
  ∧ m_branding (loadBranding served m)
    = default (m_branding m) (served_value served)
  ∧ m_isLoading (loadBranding served m)
    = (if settles served then false else m_isLoading m).
Proof.
  intros [Hs|Hs]; unfold LoadBranding.loadBranding; rewrite Hs;
    destruct served as [e|[|] [[e|v]|]|]; repeat split.
Qed.

Lemma updateBranding_saved (p : obj) (st : HookState) :
  localStorage (updateBranding JSON_stringify p st).1 !! "branding"
  = Some (JSON_stringify (VObj (p ∪ branding st))).
Proof. rewrite updateBranding_storage. apply lookup_insert_eq. Qed.


(** (X7) After a reset nothing is saved, so a component mounted afterwards asks
    the server and takes its configuration when it answers ok with one,
    and keeps the compiled-in defaults otherwise. *)
Theorem reset_then_reload (st : HookState) (served : Served) :
  let ls := localStorage (resetBranding st).1 in
  m_fetched (loadBranding served (mount ls)) = true
  ∧ m_branding (loadBranding served (mount ls))
    = default (VObj defaultBranding) (served_value served).
Proof.
  cbv zeta.
  assert (localStorage (resetBranding st).1 !! "branding" = None) as Hnone.
  { unfold resetBranding, apply_last.
    destruct (applyBrandingToDOM _ _); simpl; apply lookup_delete_eq. }
  unfold LoadBranding.loadBranding, mount. simpl. rewrite Hnone.
  destruct served as [e|[|] [[e|v]|]|]; split; reflexivity.
Qed.

End LoadFacts.

(** ** The setup wizard *)

Section WizardFacts.

Import Branding SetupPage.

Variable JSON_stringify : value → jsstring.

Lemma edit_step (w w' : Wizard) (e : Edit) :
  edit w e = Some w' →
  currentStep w ≤ 3 →
  currentStep w' ≤ 3
  ∧ currentStep w' ≤ currentStep w + (if is_Next e then 1 else 0).
Proof.
  intros He Hw. destruct e; simpl in He;
    try (injection He as <-; simpl; lia).
  - destruct (handleColorChange _ _ _ _); simpl in He; [|discriminate].
    injection He as <-. simpl. lia.
  - injection He as <-. unfold nextStep, steps_length.
    destruct (currentStep w <? 4 - 1)%nat eqn:E; simpl; [|lia].
    apply Nat.ltb_lt in E. lia.
  - injection He as <-. unfold prevStep.
    destruct (0 <? currentStep w)%nat; simpl; lia.
Qed.

(** (X8) The wizard is linear: whatever the user does, the step stays among the
    four, and it never advances by more than the number of clicks on
    Next, so the last step takes three of them. *)
Theorem wizard_steps_linear (es : list Edit) (w w' : Wizard) :
  edits w es = Some w' →
  currentStep w ≤ 3 →
  currentStep w' ≤ 3
  ∧ currentStep w' ≤ currentStep w + length (filter (λ e, is_Next e = true) es).
Proof.
  revert w. induction es as [|e es IH]; intros w; simpl.
  - intros [= <-] Hw. lia.
  - destruct (edit w e) as [w1|] eqn:He; simpl; [|discriminate].
    intros Hes Hw. destruct (edit_step _ _ _ He Hw) as [H1 H2].
    destruct (IH w1 Hes H1) as [H3 H4]. split; [exact H3|].
    rewrite filter_cons. destruct (is_Next e) eqn:En.
    + rewrite decide_True by reflexivity. simpl. lia.
    + rewrite decide_False by discriminate. lia.
Qed.

(** Going forward and back, or back and forward, returns to the same step
    with the same draft, except at the two ends. *)
Lemma wizard_next_prev (w : Wizard) :
  (currentStep w < 3 → prevStep (nextStep w) = w)
  ∧ (0 < currentStep w ≤ 3 → nextStep (prevStep w) = w)
  ∧ (currentStep w = 3 → nextStep w = w)
  ∧ (currentStep w = 0 → prevStep w = w).
Proof.
  destruct w as [n fd]. unfold nextStep, prevStep, steps_length. simpl.
  repeat split.
  - intros H. apply Nat.ltb_lt in H as H'. simpl in H'. rewrite H'. simpl.
    replace (0 <? n + 1)%nat with true by (symmetry; apply Nat.ltb_lt; lia).
    f_equal. lia.
  - intros [H0 H3]. apply Nat.ltb_lt in H0 as H'. rewrite H'. simpl.
    replace (n - 1 <? 3)%nat with true by (symmetry; apply Nat.ltb_lt; lia).
    f_equal. lia.
  - intros ->. reflexivity.
  - intros ->. reflexivity.
Qed.

(** (X9) On a draft whose [colors] holds the scheme of the theme, a colour
    change cannot throw; it sets the one colour of the one theme and leaves
    every other colour of both themes and every other field as they
    were. *)
Theorem handleColorChange_sets_one (theme : Theme) (colorKey : string)
    (v : jsstring) (prev c sch : obj) :
  get prev "colors" = VObj c →
  get c (theme_key theme) = VObj sch →
  ∃ d, handleColorChange theme colorKey v prev = Some d
       ∧ color_at d theme colorKey = Some (VStr v)
       ∧ (∀ t k, (t, k) ≠ (theme, colorKey) →
                 color_at d t k = color_at prev t k)
       ∧ (∀ f, f ≠ "colors" → d !! f = prev !! f).
Proof.
  intros Hc Hs. unfold handleColorChange. rewrite Hc. simpl. rewrite Hs.
  simpl. eexists. split; [reflexivity|]. split; [|split].
  - unfold color_at, get. rewrite lookup_insert_eq. simpl.
    unfold get. rewrite lookup_insert_eq. simpl.
    unfold get. rewrite lookup_insert_eq. reflexivity.
  - intros t k Hne. unfold color_at, get at 1. rewrite lookup_insert_eq.
    rewrite Hc. simpl.
    assert (t = theme ∨ t ≠ theme) as [->|Ht]
      by (destruct t, theme; (by left) || (by right)).
    + unfold get at 1. rewrite lookup_insert_eq. rewrite Hs. simpl.
      assert (k ≠ colorKey) as Hk by congruence.
      unfold get. rewrite lookup_insert_ne by congruence. reflexivity.
    + assert (theme_key theme ≠ theme_key t) as Hkey
        by (destruct t, theme; simpl; congruence).
      unfold get at 1. rewrite lookup_insert_ne by exact Hkey. reflexivity.
  - intros f Hf. rewrite lookup_insert_ne by congruence. reflexivity.
Qed.

End WizardFacts.

Section WizardCommit.

Import Branding SetupPage.

Variable JSON_stringify : value → jsstring.

Lemma get_insert (m : obj) (k k' : string) (v : value) :
  get (<[k := v]> m) k' = if decide (k = k') then v else get m k'.
Proof.
  unfold get. rewrite lookup_insert. destruct (decide (k = k')); reflexivity.
Qed.

Lemma has_strings_insert (keys : list string) (m : obj) (k : string)
    (v : jsstring) :
  has_strings keys (VObj m) = true →
  has_strings keys (VObj (<[k := VStr v]> m)) = true.
Proof.
  simpl. rewrite !forallb_forall. intros H x Hx.
  rewrite get_insert. destruct (decide (k = x)); [reflexivity|by apply H].
Qed.

Lemma draft_ok_insert (fd : obj) (k : string) (v : value) :
  field_ok k v = true → draft_ok fd = true → draft_ok (<[k := v]> fd) = true.
Proof.
  unfold draft_ok. rewrite !forallb_forall. intros Hv H x Hx.
  rewrite get_insert. destruct (decide (k = x)) as [<-|]; [exact Hv|by apply H].
Qed.

Lemma partial_insert (fd : obj) (k : string) (v : value) :
  field_ok k v = true →
  is_PartialBranding fd = true →
  is_PartialBranding (<[k := v]> fd) = true.
Proof.
  unfold is_PartialBranding. rewrite !forallb_forall. intros Hv H x Hx.
  rewrite lookup_insert. destruct (decide (k = x)) as [<-|]; [exact Hv|].
  by apply H.
Qed.

Lemma draft_field (fd : obj) (k : string) :
  draft_ok fd = true → k ∈ draft_keys → field_ok k (get fd k) = true.
Proof.
  unfold draft_ok. rewrite forallb_forall. intros H Hk.
  apply H. by apply list_elem_of_In.
Qed.

(** The draft a populated record starts is populated, and is an update
    complete for its keys. *)
Lemma initial_formData_ok (b : obj) :
  is_BrandingConfig b = true →
  draft_ok (initial_formData b) = true
  ∧ is_PartialBranding (initial_formData b) = true.
Proof.
  intros Hb. unfold is_BrandingConfig in Hb. rewrite forallb_forall in Hb.
  assert (∀ k, k ∈ branding_keys → field_ok k (get b k) = true) as Hk.
  { intros k Hin. apply Hb. by apply list_elem_of_In. }
  unfold initial_formData.
  split.
  - unfold draft_ok, draft_keys. simpl. unfold get at 1 3 5 7 9.
    repeat (rewrite ?lookup_insert_eq; try rewrite lookup_insert_ne by done).
    simpl. rewrite !Hk by set_solver. reflexivity.
  - repeat apply partial_insert; try (apply Hk; set_solver).
    reflexivity.
Qed.

(** Every edit the page offers succeeds on a populated draft and keeps it
    populated. *)
Lemma edit_keeps_draft (w : Wizard) (e : Edit) :
  draft_ok (formData w) = true →
  is_PartialBranding (formData w) = true →
  ∃ w', edit w e = Some w'
        ∧ draft_ok (formData w') = true
        ∧ is_PartialBranding (formData w') = true.
Proof.
  intros Hd Hp.
  assert (∀ k v, k ∈ ["email"; "phone"; "website"] →
            field_ok "contact"
              (VObj (<[k := VStr v]> (own_props (get (formData w) "contact"))))
            = true) as Hcontact.
  { intros k v _.
    pose proof (draft_field _ "contact" Hd ltac:(set_solver)) as Hc.
    change (has_strings ["email"; "phone"; "website"]
              (get (formData w) "contact") = true) in Hc.
    destruct (get (formData w) "contact") as [|s|m]; try discriminate.
    change (has_strings ["email"; "phone"; "website"]
              (VObj (<[k := VStr v]> m)) = true).
    by apply has_strings_insert. }
  destruct e; simpl;
    try (eexists; split; [reflexivity|]; simpl;
         split; [apply draft_ok_insert|apply partial_insert];
         solve [reflexivity | assumption | apply Hcontact; set_solver]).
  - pose proof (draft_field _ "colors" Hd ltac:(set_solver)) as Hc.
    change (is_Colors (get (formData w) "colors") = true) in Hc.
    unfold handleColorChange.
    destruct (get (formData w) "colors") as [|s|c] eqn:Hcol; try discriminate.
    change (is_ColorScheme (get c "light")
            && is_ColorScheme (get c "dark") = true) in Hc.
    apply andb_true_iff in Hc as [Hl Hdk].
    assert (field_ok "colors"
              (VObj (<[theme_key theme :=
                         VObj (<[colorKey := VStr v]>
                                 (own_props (get c (theme_key theme))))]> c))
            = true) as Hnew.
    { change (is_ColorScheme
                (get (<[theme_key theme :=
                          VObj (<[colorKey := VStr v]>
                                  (own_props (get c (theme_key theme))))]> c)
                     "light")
              && is_ColorScheme
                   (get (<[theme_key theme :=
                             VObj (<[colorKey := VStr v]>
                                     (own_props (get c (theme_key theme))))]>
                           c) "dark") = true).
      rewrite !get_insert. apply andb_true_iff.
      destruct theme; cbn [theme_key].
      - rewrite decide_True by reflexivity.
        rewrite decide_False by discriminate. split; [|exact Hdk].
        destruct (get c "light") as [|s|l]; try discriminate Hl.
        exact (has_strings_insert scheme_keys l colorKey v Hl).
      - rewrite decide_False by discriminate.
        rewrite decide_True by reflexivity. split; [exact Hl|].
        destruct (get c "dark") as [|s|dk]; try discriminate Hdk.
        exact (has_strings_insert scheme_keys dk colorKey v Hdk). }
    simpl. eexists. split; [reflexivity|]. simpl.
    split; [by apply draft_ok_insert|by apply partial_insert].
  - eexists. split; [reflexivity|].
    unfold nextStep. destruct (_ <? _)%nat; simpl; auto.
  - eexists. split; [reflexivity|].
    unfold prevStep. destruct (_ <? _)%nat; simpl; auto.
Qed.

Lemma edits_keep_draft (es : list Edit) :
  ∀ w, draft_ok (formData w) = true →
       is_PartialBranding (formData w) = true →
       ∃ w', edits w es = Some w'
             ∧ is_PartialBranding (formData w') = true.
Proof.
  induction es as [|e es IH]; intros w Hd Hp; simpl; [eauto|].
  destruct (edit_keeps_draft w e Hd Hp) as (w1 & -> & Hd1 & Hp1). simpl.
  by apply IH.
Qed.

Variable accepts : gmap string jsstring → jsstring → bool.

Local Abbreviation handleComplete :=
  (handleComplete JSON_stringify accepts).



End WizardCommit.

(** ** The API client singleton and the start-up *)

Section GatewayFacts.

Import App Gateway.

(** The client, when the loaded value has an [api] member, was built
    from it. *)
Lemma step_keeps_bound (st : State) (e : Event) :
  (∀ l a, appConfig st = Some l → loaded_api l = Some a →
          apiClient st = Some (Api.mkClient (baseUrl a) (timeout a))) →
  ∀ l a, appConfig (step st e) = Some l → loaded_api l = Some a →
         apiClient (step st e) = Some (Api.mkClient (baseUrl a) (timeout a)).
Proof.
  intros Hinv l a. destruct e as [f| | |]; simpl; try apply Hinv.
  destruct f as [err|[|] [err|[[c|[a'|]]|]]]; simpl;
    try apply Hinv; try discriminate.
  - by intros [= <-] [= <-].
  - by intros [= <-] [= <-].
  - by intros [= <-] [=].
Qed.

Lemma run_keeps_bound (es : list Event) :
  ∀ st,
    (∀ l a, appConfig st = Some l → loaded_api l = Some a →
            apiClient st = Some (Api.mkClient (baseUrl a) (timeout a))) →
    ∀ l a, appConfig (run es st) = Some l → loaded_api l = Some a →
           apiClient (run es st)
           = Some (Api.mkClient (baseUrl a) (timeout a)).
Proof.
  induction es as [|e es IH]; intros st Hinv; [exact Hinv|].
  simpl. apply IH. by apply step_keeps_bound.
Qed.

(** No client, and no [api] member in the loaded value: kept by every
    event but a load that reaches the assignment. *)
Lemma step_keeps_unbound (st : State) (e : Event) :
  match e with ConfigSettled f => negb (binds_client f) | _ => true end
  = true →
  apiClient st = None
  ∧ (∀ l, appConfig st = Some l → loaded_api l = None) →
  apiClient (step st e) = None
  ∧ (∀ l, appConfig (step st e) = Some l → loaded_api l = None).
Proof.
  intros He [Ha Hc]. destruct e as [f| | |]; simpl; auto.
  destruct f as [err|[|] [err|[[c|[a'|]]|]]]; simpl in *; auto;
    try discriminate He.
  - split; [exact Ha|]. by intros l [= <-].
  - split; [exact Ha|]. discriminate.
Qed.

Lemma run_keeps_unbound (es : list Event) :
  ∀ st : State,
    unbound_loads es = true →
    apiClient st = None
    ∧ (∀ l, appConfig st = Some l → loaded_api l = None) →
    apiClient (run es st) = None
    ∧ (∀ l, appConfig (run es st) = Some l → loaded_api l = None).
Proof.
  induction es as [|e es IH]; intros st Hes Hst; [exact Hst|].
  simpl in Hes. apply andb_true_iff in Hes as [He Hes].
  simpl. apply IH; [exact Hes|].
  apply step_keeps_unbound; assumption.
Qed.

(** (X12) The component checks nothing of what the configuration file
    holds.  Whenever it renders the routes with a loaded value that has
    an [api] member, [getApiClient] returns a client, and that client
    carries the base URL and the timeout of that member.  When no load
    has delivered a value with an [api] member (the file holds [{}],
    say), the routes are rendered all the same, with a value without
    [api], and [getApiClient] throws the error that names
    [initializeApi]. *)
Theorem routes_have_client (es : list Event) (ls : gmap string jsstring)
    (config : Loaded) (b : bool) :
  render (run es (initial ls)) = Routes config b →
  (∀ a, loaded_api config = Some a →
        ∃ client,
          getApiClient (run es (initial ls)) = inr client
          ∧ Api.client_baseUrl client = baseUrl a
          ∧ Api.client_timeout client = timeout a)
  ∧ (unbound_loads es = true →
     loaded_api config = None
     ∧ getApiClient (run es (initial ls)) = inl not_initialized).
Proof.
  intros Hr. apply render_routes in Hr. split.
  - intros a Ha.
    assert (apiClient (run es (initial ls))
            = Some (Api.mkClient (baseUrl a) (timeout a))) as Hc.
    { apply (run_keeps_bound es (initial ls) ltac:(discriminate) _ _ Hr Ha). }
    eexists. unfold getApiClient. rewrite Hc. auto.
  - intros Hes.
    destruct (run_keeps_unbound es (initial ls) Hes) as [Ha Hc];
      [split; [reflexivity|discriminate]|].
    split; [exact (Hc _ Hr)|].
    unfold getApiClient. rewrite Ha. reflexivity.
Qed.

(** (X13) Before any load of the configuration has succeeded, [getApiClient]
    throws the error that names [initializeApi]. *)
Theorem getApiClient_before_load (es : list Event)
    (ls : gmap string jsstring) :
  failed_loads es = true →
  getApiClient (run es (initial ls)) = inl not_initialized.
Proof.
  intros Hes.
  destruct (run_keeps_unconfigured es (initial ls) Hes) as [_ Ha];
    [split; reflexivity|].
  unfold getApiClient. rewrite Ha. reflexivity.
Qed.


End GatewayFacts.

Section RequestFacts.

Import Api.

Variable T : Type.
Variable network : jsstring → FetchInit → promise (Response T).
Variable timer_lateness : N.
Variable abort_message : jsstring.
Variable upload_network :
  jsstring → File → promise (Gateway.UploadResponse T).

Local Abbreviation request := (request T network timer_lateness abort_message).
Local Abbreviation timer_fires := (timer_fires timer_lateness).

Lemma spread_pairs_keys (l : list (jsstring * jsstring)) :
  (imap (λ i p, (pretty i, HPair p.1 p.2)) l).*1
  = pretty <$> seq 0 (length l).
Proof.
  rewrite fmap_imap.
  rewrite <- (imap_seq_0 l (λ i, pretty i)).
  apply imap_ext. reflexivity.
Qed.

(** (X15) The object [request] hands to [fetch] keeps the caller's
    method and body, and its headers always have the own key
    [Content-Type].  With no headers from the caller, or with a
    [Headers] instance, whose entries a spread does not copy, the
    headers are the JSON content type alone.  With a plain object they
    hold its entries under their names as written: the entry under the
    exact name [Content-Type] replaces the JSON one, and an entry under
    any other name, a differently cased [content-type] too, is passed
    beside it.  With an array of pairs each pair sits under its
    index. *)
Theorem request_init_headers (options : RequestInit) :
  fetch_method (request_init options) = method options
  ∧ fetch_body (request_init options) = body options
  ∧ is_Some (fetch_headers (request_init options) !! "Content-Type")
  ∧ (headers options = None →
     fetch_headers (request_init options)
     = {["Content-Type" := HText (js "application/json")]})
  ∧ (∀ h, headers options = Some (HeadersInstance h) →
          fetch_headers (request_init options)
          = {["Content-Type" := HText (js "application/json")]})
  ∧ (∀ m, headers options = Some (HeadersRecord m) →
          fetch_headers (request_init options) !! "Content-Type"
          = Some (HText (default (js "application/json")
                           (m !! "Content-Type")))
          ∧ ∀ h, h ≠ "Content-Type" →
                 fetch_headers (request_init options) !! h
                 = HText <$> m !! h)
  ∧ (∀ l i p, headers options = Some (HeadersPairs l) →
              l !! i = Some p →
              fetch_headers (request_init options) !! pretty i
              = Some (HPair p.1 p.2)).
Proof.
  unfold request_init. simpl.
  split; [reflexivity|]. split; [reflexivity|]. split; [|split; [|split]].
  - rewrite lookup_union, lookup_singleton_eq.
    destruct (spread_headers _ !! _); simpl; eauto.
  - intros ->. simpl. apply (left_id ∅ (∪)).
  - intros h ->. simpl. apply (left_id ∅ (∪)).
  - split.
    + intros m ->. simpl. split.
      * rewrite lookup_union, lookup_singleton_eq, lookup_fmap.
        destruct (m !! "Content-Type"); reflexivity.
      * intros h Hh.
        rewrite lookup_union, lookup_singleton_ne by congruence.
        rewrite lookup_fmap. destruct (m !! h); reflexivity.
    + intros l i p -> Hi. simpl.
      apply lookup_union_Some_l.
      apply elem_of_list_to_map.
      * rewrite spread_pairs_keys.
        apply (NoDup_fmap_2 _), NoDup_seq.
      * apply elem_of_lookup_imap. eauto.
Qed.

(** (X16) A call that returns data had an ok answer that came before
    the callback of the timer ran, and whose body parsed to that
    data. *)
Theorem request_returns_only_ok (this : ApiClient) (endpoint : jsstring)
    (options : RequestInit) (v : T) :
  request this endpoint options = Returns v →
  ∃ t response t',
    network (request_url this endpoint) (request_init options)
    = Settles t (inr response)
    ∧ (t < timer_fires (client_timeout this))%N
    ∧ ok T response = true
    ∧ json T response = Settles t' (inr v).
Proof.
  unfold Api.request, fetch_with_abort, request_catch.
  destruct (network _ _) as [t [e|response]|] eqn:Hn.
  - destruct (t <? _)%N; [destruct (_ && _)|]; discriminate.
  - destruct (t <? _)%N eqn:Ht; [|discriminate].
    destruct (ok T response) eqn:Hok; simpl; [|discriminate].
    destruct (json T response) as [t' [e|v']|] eqn:Hj.
    + destruct (_ && _); discriminate.
    + intros [= ->]. exists t, response, t'.
      apply N.ltb_lt in Ht. auto.
    + discriminate.
  - discriminate.
Qed.

(** (X17) A call stays pending only while the body of an ok answer,
    one that came before the callback of the timer ran, is being read:
    whatever the server does before that, the call settles. *)
Theorem request_pending_only_in_body (this : ApiClient)
    (endpoint : jsstring) (options : RequestInit) :
  request this endpoint options = Pending →
  ∃ t response,
    network (request_url this endpoint) (request_init options)
    = Settles t (inr response)
    ∧ (t < timer_fires (client_timeout this))%N
    ∧ ok T response = true
    ∧ json T response = Never.
Proof.
  unfold Api.request, fetch_with_abort, request_catch.
  destruct (network _ _) as [t [e|response]|] eqn:Hn.
  - destruct (t <? _)%N; [destruct (_ && _)|]; discriminate.
  - destruct (t <? _)%N eqn:Ht; [|discriminate].
    destruct (ok T response) eqn:Hok; simpl; [|discriminate].
    destruct (json T response) as [t' [e|v']|] eqn:Hj.
    + destruct (_ && _); discriminate.
    + discriminate.
    + intros _. exists t, response. apply N.ltb_lt in Ht. auto.
  - discriminate.
Qed.

(** (X18) Against a server that never answers, a call through [request] fails
    with the timeout error, while [uploadDocument], which arms no timer,
    stays pending. *)
Theorem uploadDocument_has_no_timeout (this : ApiClient)
    (endpoint : jsstring) (options : RequestInit) (file : File) :
  network (request_url this endpoint) (request_init options) = Never →
  upload_network (client_baseUrl this ++ js "/api/documents/upload") file
  = Never →
  request this endpoint options = Throws timeout_error
  ∧ Gateway.uploadDocument T upload_network this file = Pending.
Proof.
  intros Hn Hu. split.
  - unfold Api.request, fetch_with_abort. rewrite Hn. reflexivity.
  - unfold Gateway.uploadDocument. rewrite Hu. reflexivity.
Qed.

(** [uploadDocument] returns data only for an ok answer whose body parsed,
    and reports an answer that is not ok with its status text. *)
Lemma uploadDocument_outcomes (this : ApiClient) (file : File) (t : N)
    (response : Gateway.UploadResponse T) :
  upload_network (client_baseUrl this ++ js "/api/documents/upload") file
  = Settles t (inr response) →
  (Gateway.up_ok T response = false →
   Gateway.uploadDocument T upload_network this file
   = Throws (new_Error (js "Upload failed: "
                        ++ Gateway.up_statusText T response)))
  ∧ (∀ v, Gateway.uploadDocument T upload_network this file = Returns v →
          Gateway.up_ok T response = true
          ∧ ∃ t', Gateway.up_json T response = Settles t' (inr v)).
Proof.
  intros Hu. unfold Gateway.uploadDocument. rewrite Hu. split.
  - intros ->. reflexivity.
  - intros v. destruct (Gateway.up_ok T response); simpl; [|discriminate].
    destruct (Gateway.up_json T response) as [t' [e|v']|];
      try discriminate.
    intros [= ->]. eauto.
Qed.

End RequestFacts.

(** ** More on sanitization and the file checks *)

Section SanitizeMore.

Lemma trimStart_frame (s : jsstring) :
  ∃ ws, s = ws ++ trimStart s ∧ Forall (λ c, is_ws c = true) ws.
Proof.
  induction s as [|c s (ws & IH & Hws)]; [by exists []|].
  simpl. destruct (is_ws c) eqn:Hc.
  - exists (c :: ws). split; [simpl; by rewrite <- IH|by constructor].
  - by exists [].
Qed.

(** [trim] takes white space off the two ends and nothing else. *)
Lemma trim_frame (s : jsstring) :
  ∃ lead trail,
    s = lead ++ trim s ++ trail
    ∧ Forall (λ c, is_ws c = true) lead
    ∧ Forall (λ c, is_ws c = true) trail.
Proof.
  destruct (trimStart_frame s) as (lead & Hs & Hlead).
  destruct (trimStart_frame (reverse (trimStart s))) as (ws & Hr & Hws).
  exists lead, (reverse ws). split; [|split; [exact Hlead|]].
  - unfold trim. rewrite <- reverse_app, <- Hr, reverse_involutive.
    exact Hs.
  - by apply Forall_reverse.
Qed.

Lemma remove_ci_sublist (pat s : jsstring) :
  ∀ skip, remove_ci pat skip s `sublist_of` s.
Proof.
  induction s as [|c s IH]; intros skip; simpl; [constructor|].
  destruct skip as [|k].
  - destruct (starts_with_ci pat (c :: s)).
    + by apply sublist_cons.
    + by apply sublist_skip.
  - by apply sublist_cons.
Qed.

Lemma remove_handlers_sublist (s : jsstring) :
  ∀ skip, remove_handlers skip s `sublist_of` s.
Proof.
  induction s as [|c s IH]; intros skip; simpl; [constructor|].
  destruct skip as [|k].
  - destruct (handler_match (c :: s)).
    + by apply sublist_cons.
    + by apply sublist_skip.
  - by apply sublist_cons.
Qed.

Lemma remove_angle_sublist (s : jsstring) : remove_angle s `sublist_of` s.
Proof. unfold remove_angle. apply sublist_filter. Qed.

(** (X19) [sanitizeInput] only deletes: its result is the input with some code
    units left out, in the same order, so it is never longer. *)
Theorem sanitizeInput_only_deletes (input : jsstring) :
  sanitizeInput input `sublist_of` input
  ∧ length (sanitizeInput input) ≤ length input.
Proof.
  assert (sanitizeInput input `sublist_of` input) as H.
  { unfold sanitizeInput.
    etrans; [|apply remove_angle_sublist].
    etrans; [|apply remove_ci_sublist].
    etrans; [|apply remove_handlers_sublist].
    destruct (trim_frame
                (remove_handlers 0
                   (remove_ci (js "javascript:") 0 (remove_angle input))))
      as (lead & trail & Heq & _).
    rewrite Heq at 2. apply sublist_inserts_l, sublist_inserts_r.
    reflexivity. }
  split; [exact H|by apply sublist_length].
Qed.

Lemma canon_eq_low (p c : N) :
  (p < 65)%N → canon p = canon c → c = p.
Proof.
  unfold canon. intros Hp.
  destruct ((97 <=? p) && (p <=? 122))%N eqn:E1.
  { apply andb_true_iff in E1 as [H1 _]. apply N.leb_le in H1. lia. }
  destruct ((97 <=? c) && (c <=? 122))%N eqn:E2; [|congruence].
  apply andb_true_iff in E2 as [H1 H2].
  apply N.leb_le in H1. apply N.leb_le in H2. lia.
Qed.

Lemma starts_with_ci_elem (pat1 pat2 : jsstring) (p : N) :
  (p < 65)%N →
  ∀ s, starts_with_ci (pat1 ++ p :: pat2) s = true → p ∈ s.
Proof.
  intros Hp. induction pat1 as [|a pat1 IH]; intros s; simpl.
  - destruct s as [|c s]; [discriminate|].
    intros [H _]%andb_true_iff. apply N.eqb_eq in H.
    rewrite (canon_eq_low p c Hp H). left.
  - destruct s as [|c s]; [discriminate|].
    intros [_ H]%andb_true_iff. right. by apply IH.
Qed.

Lemma remove_ci_id (pat1 pat2 : jsstring) (p : N) (s : jsstring) :
  (p < 65)%N → p ∉ s → remove_ci (pat1 ++ p :: pat2) 0 s = s.
Proof.
  intros Hp. induction s as [|c s IH]; [reflexivity|].
  intros Hn. simpl.
  destruct (starts_with_ci (pat1 ++ p :: pat2) (c :: s)) eqn:E.
  - exfalso. apply Hn. by apply (starts_with_ci_elem pat1 pat2 p Hp).
  - f_equal. apply IH. intros H. apply Hn. by right.
Qed.

Lemma remove_ci_javascript_id (s : jsstring) :
  code ":" ∉ s → remove_ci (js "javascript:") 0 s = s.
Proof.
  intros Hn.
  change (js "javascript:") with (js "javascript" ++ code ":" :: []).
  apply remove_ci_id; [vm_compute; reflexivity|exact Hn].
Qed.

Lemma drop_elem (k : nat) :
  ∀ (l : jsstring) (x : N), x ∈ drop k l → x ∈ l.
Proof.
  induction k as [|k IH]; intros l x; [by rewrite drop_0|].
  destruct l as [|a l]; simpl; [done|]. intros H. right. by apply IH.
Qed.

Lemma handler_match_elem (s : jsstring) (n : nat) :
  handler_match s = Some n → code "=" ∈ s.
Proof.
  unfold handler_match. destruct s as [|o [|m rest]]; try discriminate.
  destruct (_ && _); [|discriminate].
  destruct (word_run rest); [discriminate|].
  destruct (drop _ rest) as [|e tl] eqn:Hd; [discriminate|].
  destruct (e =? code "=")%N eqn:He; [|discriminate].
  intros _. apply N.eqb_eq in He. subst e.
  right. right. eapply drop_elem. rewrite Hd. left.
Qed.

Lemma remove_handlers_id (s : jsstring) :
  code "=" ∉ s → remove_handlers 0 s = s.
Proof.
  induction s as [|c s IH]; [reflexivity|].
  intros Hn. simpl remove_handlers.
  destruct (handler_match (c :: s)) as [n|] eqn:E.
  - exfalso. apply Hn. by apply (handler_match_elem _ n).
  - f_equal. apply IH. intros H. apply Hn. by right.
Qed.

Lemma trimStart_id (s : jsstring) :
  (∀ c, head s = Some c → is_ws c = false) → trimStart s = s.
Proof.
  destruct s as [|c s]; [reflexivity|]. intros H. simpl.
  by rewrite (H c eq_refl).
Qed.

Lemma trim_id (s : jsstring) :
  (∀ c, head s = Some c → is_ws c = false) →
  (∀ c, last s = Some c → is_ws c = false) →
  trim s = s.
Proof.
  intros Hh Hl. unfold trim. rewrite (trimStart_id s Hh).
  rewrite trimStart_id; [apply reverse_involutive|].
  intros c. rewrite head_reverse. apply Hl.
Qed.

Lemma remove_angle_id (s : jsstring) :
  code "<" ∉ s → code ">" ∉ s → remove_angle s = s.
Proof.
  unfold remove_angle. induction s as [|c s IH]; [reflexivity|].
  intros H1 H2. apply not_elem_of_cons in H1 as [H1 H1'].
  apply not_elem_of_cons in H2 as [H2 H2'].
  rewrite filter_cons, decide_True by (split; congruence).
  f_equal. by apply IH.
Qed.

(** (X20) Text without [<], [>], [:] and [=] that neither starts nor ends with
    white space passes [sanitizeInput] unchanged. *)
Theorem sanitizeInput_plain_text (input : jsstring) :
  Forall (λ c, c ∉ [code "<"; code ">"; code ":"; code "="]) input →
  (∀ c, head input = Some c → is_ws c = false) →
  (∀ c, last input = Some c → is_ws c = false) →
  sanitizeInput input = input.
Proof.
  intros Hplain Hh Hl.
  assert (∀ x, x ∈ [code "<"; code ">"; code ":"; code "="] → x ∉ input)
    as Hno.
  { intros x Hx Hin. rewrite Forall_forall in Hplain.
    by apply (Hplain x Hin). }
  assert (remove_angle input = input) as Ha.
  { apply remove_angle_id; apply Hno; set_solver. }
  unfold sanitizeInput.
  rewrite Ha, remove_ci_javascript_id, remove_handlers_id, trim_id;
    auto; apply Hno; set_solver.
Qed.

End SanitizeMore.

Section ExtensionFacts.

Variable toLowerCase : jsstring → jsstring.

Lemma after_final_absent (sep : N) (s : jsstring) :
  sep ∉ s → after_final sep s = None.
Proof.
  induction s as [|c s IH]; [reflexivity|].
  intros [Hc Hs]%not_elem_of_cons. simpl. rewrite (IH Hs).
  destruct (c =? sep)%N eqn:E; [|reflexivity].
  apply N.eqb_eq in E. congruence.
Qed.

Lemma after_final_suffix (sep : N) (base ext : jsstring) :
  sep ∉ ext → after_final sep (base ++ sep :: ext) = Some ext.
Proof.
  intros Hext. induction base as [|c base IH]; simpl.
  - rewrite (after_final_absent sep ext Hext), N.eqb_refl. reflexivity.
  - rewrite IH. reflexivity.
Qed.

(** (X21) Only what follows the last dot of the name counts: for a name
    [base.ext] with no dot in [ext] the extension checked is [.ext] in
    lower case, whatever [base] holds; for a name without any dot it is
    the whole name behind a dot. *)
Theorem fileExtension_last_suffix (base ext ty : jsstring) (sz : Z) :
  code "." ∉ ext →
  fileExtension toLowerCase (mkFile (base ++ code "." :: ext) ty sz)
  = code "." :: toLowerCase ext
  ∧ fileExtension toLowerCase (mkFile ext ty sz)
    = code "." :: toLowerCase ext.
Proof.
  intros Hext. rewrite !fileExtension_after_final. unfold extension.
  cbn [file_name].
  rewrite (after_final_suffix _ base ext Hext).
  rewrite (after_final_absent _ ext Hext). split; reflexivity.
Qed.

(** (X22) When lower-casing leaves no ASCII capital, only an entry of
    [allowedTypes] that starts with a dot and holds no ASCII capital can
    ever admit a file. *)
Theorem validateFileType_matching_entry (file : File)
    (allowed : list jsstring) :
  (∀ s, Forall (λ c, ¬ (65 ≤ c ≤ 90)%N) (toLowerCase s)) →
  validateFileType toLowerCase file allowed = true →
  ∃ t, t ∈ allowed
       ∧ head t = Some (code ".")
       ∧ Forall (λ c, ¬ (65 ≤ c ≤ 90)%N) t.
Proof.
  intros Hlow Hv. unfold validateFileType in Hv.
  apply bool_decide_eq_true_1 in Hv.
  exists (fileExtension toLowerCase file). split; [exact Hv|].
  rewrite fileExtension_after_final. split; [reflexivity|].
  constructor; [intros [H _]; apply H; reflexivity|apply Hlow].
Qed.

End ExtensionFacts.

Lemma ascii_toLowerCase_lower (s : jsstring) :
  Forall (λ c, ¬ (65 ≤ c ≤ 90)%N) (ascii_toLowerCase s).
Proof.
  unfold ascii_toLowerCase. apply Forall_fmap, Forall_forall.
  intros c _. simpl.
  destruct ((65 <=? c) && (c <=? 90))%N eqn:E.
  - apply andb_true_iff in E as [H1 H2].
    apply N.leb_le in H1. apply N.leb_le in H2. lia.
  - intros [H1 H2]. apply N.leb_le in H1. apply N.leb_le in H2.
    rewrite H1, H2 in E. discriminate.
Qed.

(** ** More on the drop handler and the upload pipeline *)

Section UploadMore.

Import DocumentUpload SimulateUpload.

Variable toLowerCase : jsstring → jsstring.
Variable Number_toString : Q → jsstring.
Variable appConfig : AppConfig.
Variable ticks : nat → Tick.

Local Abbreviation forEach :=
  (forEach toLowerCase Number_toString appConfig ticks).
Local Abbreviation onDrop :=
  (onDrop toLowerCase Number_toString appConfig ticks).
Local Abbreviation valid file :=
  (validateFileType toLowerCase file (allowedTypes (fileUpload appConfig))
   && validateFileSize file (maxSize (fileUpload appConfig)) = true).

Lemma forEach_shape (files : list File) :
  ∀ i,
    name <$> (forEach files i [] []).1
    = file_name <$> filter (λ f, valid f) files
    ∧ Forall (λ d, status d = uploading ∧ analysis d = None)
        (forEach files i [] []).1
    ∧ length (forEach files i [] []).2 = length files.
Proof.
  induction files as [|file rest IH]; intros i; simpl.
  - repeat split. constructor.
  - destruct (IH (S i)) as (Hn & Hf & Hl).
    assert (filter (λ f, valid f) (file :: rest)
            = if validateFileType toLowerCase file
                   (allowedTypes (fileUpload appConfig))
                 && validateFileSize file (maxSize (fileUpload appConfig))
              then file :: filter (λ f, valid f) rest
              else filter (λ f, valid f) rest) as ->.
    { rewrite filter_cons. destruct (decide _) as [->|Hv]; [reflexivity|].
      apply not_true_is_false in Hv. by rewrite Hv. }
    destruct (validateFileType _ file _) eqn:Ht; cbn [negb andb].
    + destruct (validateFileSize file _) eqn:Hs; cbn [negb];
        rewrite (forEach_acc toLowerCase Number_toString appConfig ticks);
        cbn [fst snd app length].
      * rewrite !fmap_cons, Hn, Hl. repeat split.
        constructor; [by split|exact Hf].
      * rewrite Hl. by repeat split.
    + rewrite (forEach_acc toLowerCase Number_toString appConfig ticks).
      cbn [fst snd app length]. rewrite Hl. by repeat split.
Qed.

(** (X23) A drop adds one document for each file that passes both checks, in the
    order of the drop and behind the documents already listed, each named
    after its file, in state [uploading] and without analysis; every
    dropped file gives exactly one effect, an alert or an upload. *)
Theorem onDrop_accepts_in_order (documents : list Document)
    (acceptedFiles : list File) :
  ∃ added,
    (onDrop documents acceptedFiles).1 = documents ++ added
    ∧ name <$> added = file_name <$> filter (λ f, valid f) acceptedFiles
    ∧ Forall (λ d, status d = uploading ∧ analysis d = None) added
    ∧ length (onDrop documents acceptedFiles).2 = length acceptedFiles.
Proof.
  rewrite (onDrop_unfold toLowerCase Number_toString appConfig ticks).
  simpl. exists (forEach acceptedFiles 0 [] []).1.
  destruct (forEach_shape acceptedFiles 0) as (Hn & Hf & Hl). auto.
Qed.

End UploadMore.

Section PipelineFacts.

Import DocumentUpload SimulateUpload.

Lemma step_identity (p : Panel) (s : Step) :
  id <$> documents (step p s) = id <$> documents p
  ∧ name <$> documents (step p s) = name <$> documents p
  ∧ size <$> documents (step p s) = size <$> documents p.
Proof.
  destruct s as [i n|i|i|i]; simpl; try by repeat split.
  - rewrite <- !list_fmap_compose.
    repeat split; apply list_fmap_ext; intros k doc _; simpl;
      by destruct (bool_decide _).
  - rewrite <- !list_fmap_compose.
    repeat split; apply list_fmap_ext; intros k doc _; simpl;
      by destruct (bool_decide _).
Qed.

(** (X24) Whatever steps of whatever uploads run, in any interleaving, the list
    keeps its documents: none is added, removed, moved, renamed or
    re-identified. *)
Theorem pipeline_keeps_documents (ss : list Step) (p : Panel) :
  id <$> documents (run p ss) = id <$> documents p
  ∧ name <$> documents (run p ss) = name <$> documents p
  ∧ size <$> documents (run p ss) = size <$> documents p
  ∧ length (documents (run p ss)) = length (documents p).
Proof.
  assert (id <$> documents (run p ss) = id <$> documents p
          ∧ name <$> documents (run p ss) = name <$> documents p
          ∧ size <$> documents (run p ss) = size <$> documents p) as H.
  { revert p. induction ss as [|s ss IH]; intros p; [by repeat split|].
    simpl. destruct (IH (step p s)) as (H1 & H2 & H3).
    destruct (step_identity p s) as (E1 & E2 & E3).
    rewrite H1, H2, H3. auto. }
  destruct H as (H1 & H2 & H3). repeat split; try assumption.
  apply (f_equal length) in H1. by rewrite !length_fmap in H1.
Qed.

Lemma step_other (p : Panel) (s : Step) (j : jsstring) :
  step_id s ≠ j →
  filter (λ d, id d = j) (documents (step p s))
  = filter (λ d, id d = j) (documents p)
  ∧ uploadProgress (step p s) !! j = uploadProgress p !! j.
Proof.
  intros Hne. destruct s as [i n|i|i|i]; simpl in *.
  - split; [reflexivity|]. by rewrite lookup_insert_ne.
  - split; [|reflexivity].
    induction (documents p) as [|d ds IH]; [reflexivity|].
    rewrite fmap_cons, !filter_cons, IH.
    destruct (bool_decide (id d = i)) eqn:E.
    + apply bool_decide_eq_true_1 in E. simpl.
      rewrite !decide_False by congruence. reflexivity.
    + reflexivity.
  - split; [|reflexivity].
    induction (documents p) as [|d ds IH]; [reflexivity|].
    rewrite fmap_cons, !filter_cons, IH.
    destruct (bool_decide (id d = i)) eqn:E.
    + apply bool_decide_eq_true_1 in E. simpl.
      rewrite !decide_False by congruence. reflexivity.
    + reflexivity.
  - split; [reflexivity|]. by rewrite lookup_delete_ne.
Qed.

(** (X25) Uploads do not disturb one another: steps of other uploads, however
    many and in any order, leave the documents of an identifier and its
    progress entry exactly as they were. *)
Theorem pipeline_non_interference (ss : list Step) (p : Panel)
    (j : jsstring) :
  Forall (λ s, step_id s ≠ j) ss →
  filter (λ d, id d = j) (documents (run p ss))
  = filter (λ d, id d = j) (documents p)
  ∧ uploadProgress (run p ss) !! j = uploadProgress p !! j.
Proof.
  intros Hss. revert p.
  induction Hss as [|s ss Hs _ IH]; intros p; [by split|].
  simpl. destruct (IH (step p s)) as [H1 H2].
  destruct (step_other p s j Hs) as [E1 E2].
  rewrite H1, H2. auto.
Qed.

Lemma run_cons (p : Panel) (s : Step) (ss : list Step) :
  run p (s :: ss) = run (step p s) ss.
Proof. reflexivity. Qed.

Lemma run_app (p : Panel) (ss1 ss2 : list Step) :
  run p (ss1 ++ ss2) = run (run p ss1) ss2.
Proof. unfold run. apply foldl_app. Qed.

Lemma progress_loop (i : jsstring) (ks : list nat) (p : Panel) :
  documents (run p ((λ k, Progress i (10 * N.of_nat k)%N) <$> ks))
  = documents p
  ∧ delete i (uploadProgress
                (run p ((λ k, Progress i (10 * N.of_nat k)%N) <$> ks)))
    = delete i (uploadProgress p).
Proof.
  revert p. induction ks as [|k ks IH]; intros p; [by split|].
  rewrite fmap_cons, run_cons.
  destruct (IH (step p (Progress i (10 * N.of_nat k)%N)))
    as [H1 H2].
  rewrite H1, H2. cbn [step documents uploadProgress].
  split; [reflexivity|]. apply delete_insert_eq.
Qed.

Lemma simulateUpload_documents (documentId : jsstring) (p : Panel) :
  documents (run p (simulateUpload documentId))
  = finished documentId <$> documents p.
Proof.
  unfold simulateUpload. rewrite run_app, !run_cons.
  destruct (progress_loop documentId (seq 0 11) p) as [Hd _].
  change (run ?q []) with q. cbn [step documents].
  rewrite Hd, <- list_fmap_compose.
  apply list_fmap_ext. intros k doc _. unfold finished. simpl.
  destruct (bool_decide (id doc = documentId)) eqn:E; simpl; rewrite E;
    reflexivity.
Qed.

Lemma simulateUpload_progress (documentId : jsstring) (p : Panel) :
  uploadProgress (run p (simulateUpload documentId)) !! documentId = None.
Proof.
  unfold simulateUpload. rewrite run_app, !run_cons.
  change (run ?q []) with q. cbn [step uploadProgress].
  apply lookup_delete_eq.
Qed.

(** (X26) One whole simulated upload turns every document of the identifier to
    [ready] with the analysis attached, whose summary and key points are
    not empty, leaves every other document as it was, and leaves no
    progress entry for the identifier. *)
Theorem simulateUpload_result (documentId : jsstring) (p : Panel) :
  documents (run p (simulateUpload documentId))
  = finished documentId <$> documents p
  ∧ uploadProgress (run p (simulateUpload documentId)) !! documentId = None
  ∧ (∀ d, d ∈ documents (run p (simulateUpload documentId)) →
          id d = documentId →
          status d = ready
          ∧ ∃ a, analysis d = Some a ∧ summary a ≠ [] ∧ keyPoints a ≠ [])
  ∧ (∀ k d, documents p !! k = Some d → id d ≠ documentId →
            documents (run p (simulateUpload documentId)) !! k = Some d).
Proof.
  pose proof (simulateUpload_documents documentId p) as Hdocs.
  split; [exact Hdocs|]. split; [apply simulateUpload_progress|split].
  - intros d Hd Hid. rewrite Hdocs in Hd.
    apply list_elem_of_fmap in Hd as (d0 & -> & _).
    unfold finished in *. destruct (bool_decide (id d0 = documentId)) eqn:E.
    + split; [reflexivity|]. exists mockAnalysis.
      split; [reflexivity|]. split; vm_compute; discriminate.
    + apply bool_decide_eq_false_1 in E. contradiction.
  - intros k d Hk Hne. rewrite Hdocs, list_lookup_fmap, Hk. simpl.
    unfold finished. by rewrite bool_decide_eq_false_2.
Qed.

End PipelineFacts.

Section ScenarioFacts.

Import DocumentUpload SimulateUpload ContractAnalysis.

Variable toLowerCase : jsstring → jsstring.
Variable Number_toString : Q → jsstring.
Variable appConfig : AppConfig.
Variable ticks : nat → Tick.

Local Abbreviation onDrop :=
  (onDrop toLowerCase Number_toString appConfig ticks).

(** (X27) A single file that passes both checks is listed last, as [uploading],
    and one upload is started for it; when that upload has run, the last
    document of the list is [ready], carries the name and the size of the
    file and the analysis, and no progress entry is left for it. *)
Theorem drop_then_upload (documents : list Document) (file : File)
    (progress : gmap jsstring N) :
  validateFileType toLowerCase file (allowedTypes (fileUpload appConfig))
  = true →
  validateFileSize file (maxSize (fileUpload appConfig)) = true →
  let d := new_document file (ticks 0) in
  let after := run (mkPanel (onDrop documents [file]).1 progress)
                 (simulateUpload (id d)) in
  onDrop documents [file]
  = (documents ++ [d], [SimulateUpload (id d) file])
  ∧ last (SimulateUpload.documents after)
    = Some (with_status d ready (Some mockAnalysis))
  ∧ name (with_status d ready (Some mockAnalysis)) = file_name file
  ∧ size (with_status d ready (Some mockAnalysis)) = file_size file
  ∧ uploadProgress after !! id d = None.
Proof.
  intros Ht Hs. cbv zeta.
  assert (onDrop documents [file]
          = (documents ++ [new_document file (ticks 0)],
             [SimulateUpload (id (new_document file (ticks 0))) file]))
    as Hdrop.
  { unfold DocumentUpload.onDrop, forEach. rewrite Ht, Hs. reflexivity. }
  rewrite Hdrop. split; [reflexivity|].
  cbn [fst]. rewrite simulateUpload_documents.
  cbn [SimulateUpload.documents].
  rewrite fmap_app, fmap_cons, fmap_nil, last_snoc.
  unfold finished. rewrite bool_decide_eq_true_2 by reflexivity.
  repeat split. apply simulateUpload_progress.
Qed.

Lemma contractDocuments_elem (documents : list Document) (d : Document) :
  d ∈ contractDocuments toLowerCase documents
  ↔ d ∈ documents ∧ is_contract toLowerCase d = true.
Proof.
  unfold contractDocuments. rewrite list_elem_of_filter. tauto.
Qed.

(** (X28) A document is offered for contract analysis only once it is [ready]:
    one whose name or type qualifies is not offered while it is in another
    state, and is offered, in its finished form, when its upload has run.
    The documents offered keep the order of the list. *)
Theorem contractDocuments_after_upload (p : Panel) (d : Document) :
  d ∈ SimulateUpload.documents p →
  is_contract toLowerCase (with_status d ready (Some mockAnalysis)) = true →
  (status d ≠ ready →
   d ∉ contractDocuments toLowerCase (SimulateUpload.documents p))
  ∧ with_status d ready (Some mockAnalysis)
    ∈ contractDocuments toLowerCase
        (SimulateUpload.documents (run p (simulateUpload (id d))))
  ∧ contractDocuments toLowerCase (SimulateUpload.documents p)
    `sublist_of` SimulateUpload.documents p.
Proof.
  intros Hin Hq. split; [|split].
  - intros Hst [_ Hc]%contractDocuments_elem.
    unfold is_contract in Hc. destruct (status d); try discriminate.
    by apply Hst.
  - apply contractDocuments_elem. split; [|exact Hq].
    rewrite simulateUpload_documents.
    apply list_elem_of_fmap. exists d. split; [|exact Hin].
    unfold finished. by rewrite bool_decide_eq_true_2.
  - unfold contractDocuments. apply sublist_filter.
Qed.

End ScenarioFacts.

(** ** More on the case search and the chat *)

Section SearchMore.

Import CaseSearch.

(** Without a selected court the search is refused like a blank case
    number: the validation message is set, nothing else is touched and no
    request is started, whatever the case number. *)
Lemma handleSearch_no_court (courts : list Court) (now : Z) (st : State) :
  selectedCourt st = [] →
  handleSearch st = ([setError validation_message], false)
  ∧ error (search courts now st) = validation_message
  ∧ caseInfo (search courts now st) = caseInfo st
  ∧ isSearching (search courts now st) = isSearching st.
Proof.
  intros Hc.
  assert (handleSearch st = ([setError validation_message], false)) as Hh.
  { unfold handleSearch. rewrite Hc. simpl. by rewrite orb_true_r. }
  split; [exact Hh|]. unfold search. rewrite Hh. simpl. auto.
Qed.

Lemma find_first {A : Type} (f : A → bool) (l1 l2 : list A) (x : A) :
  Forall (λ y, f y = false) l1 → f x = true →
  List.find f (l1 ++ x :: l2) = Some x.
Proof.
  induction 1 as [|y l1 Hy _ IH]; intros Hx; simpl.
  - by rewrite Hx.
  - rewrite Hy. by apply IH.
Qed.

Lemma find_none {A : Type} (f : A → bool) (l : list A) :
  Forall (λ y, f y = false) l → List.find f l = None.
Proof.
  induction 1 as [|y l Hy _ IH]; simpl; [reflexivity|]. by rewrite Hy.
Qed.

(** (X29) A search that runs stores the case number as it was typed, and names
    the court by the first entry of the court list with the selected
    identifier; when no entry has it, or that entry has an empty name, the
    identifier itself is shown. *)
Theorem search_names_court (courts : list Court) (now : Z) (st : State) :
  trim (caseNumber st) ≠ [] →
  selectedCourt st ≠ [] →
  ∃ info,
    caseInfo (search courts now st) = Some info
    ∧ number info = caseNumber st
    ∧ (Forall (λ c, court_id c ≠ selectedCourt st) courts →
       court info = selectedCourt st)
    ∧ (∀ l1 c l2,
         courts = l1 ++ c :: l2 →
         Forall (λ x, court_id x ≠ selectedCourt st) l1 →
         court_id c = selectedCourt st →
         court info = if falsy (court_name c) then selectedCourt st
                      else court_name c).
Proof.
  intros Hn Hc.
  destruct (search_runs courts now st Hn Hc) as (Hinfo & _).
  eexists. split; [exact Hinfo|]. split; [reflexivity|]. split.
  - intros Hnone. simpl. rewrite find_none; [reflexivity|].
    eapply Forall_impl; [exact Hnone|]. intros c Hne. simpl in Hne.
    by apply bool_decide_eq_false_2.
  - intros l1 c l2 -> Hl1 Hid. simpl.
    rewrite (find_first _ l1 l2 c); [reflexivity| |].
    + eapply Forall_impl; [exact Hl1|]. intros x Hne. simpl in Hne.
      by apply bool_decide_eq_false_2.
    + by apply bool_decide_eq_true_2.
Qed.

End SearchMore.

Section ChatMore.

Import MainPage Chat.

Lemma chat_step_prefix (st : State) (e : Event) :
  messages st `prefix_of` messages (step st e).
Proof.
  destruct e as [text|now date|now date]; simpl.
  - reflexivity.
  - unfold handleSendMessage. destruct (CaseSearch.falsy _); simpl.
    + reflexivity.
    + by apply prefix_app_r.
  - by apply prefix_app_r.
Qed.

(** (X30) Without a clear, the conversation only grows at its end: whatever is
    typed, sent and answered, the messages there were stay, in order, at
    the front of the list. *)
Theorem chat_append_only (es : list Event) (st : State) :
  messages st `prefix_of` messages (run st es).
Proof.
  revert st. induction es as [|e es IH]; intros st; [reflexivity|].
  simpl. etrans; [apply chat_step_prefix|apply IH].
Qed.

(** Sending a text that is not blank appends one user message with the
    text as typed and empties the box; the reply then appends one
    assistant message behind it.  Sending a blank text changes nothing. *)
Lemma send_then_reply (st : State) (now now' : N) (date date' : Z) :
  (trim (currentMessage st) ≠ [] →
   ∃ m r,
     run st [Send now date; Reply now' date'] 
     = mkState (messages st ++ [m; r]) []
     ∧ type m = user ∧ content m = currentMessage st
     ∧ type r = assistant)
  ∧ (trim (currentMessage st) = [] → step st (Send now date) = st).
Proof.
  split.
  - intros Hn. simpl. unfold handleSendMessage, assistant_reply.
    destruct (trim (currentMessage st)) as [|a t]; [done|]. simpl.
    eexists _, _. rewrite <- app_assoc. simpl.
    split; [reflexivity|]. auto.
  - intros Hb. simpl. unfold handleSendMessage. rewrite Hb. reflexivity.
Qed.

End ChatMore.

(** ** The further properties at concrete inputs *)

Lemma applyBrandingToDOM_populated_witness :
  Branding.is_BrandingConfig Branding.defaultBranding = true
  ∧ is_Some (Branding.applyBrandingToDOM Branding.defaultBranding
               (Branding.mkDom true true [])).
Proof.
  assert (Branding.is_BrandingConfig Branding.defaultBranding = true) as H
    by (vm_compute; reflexivity).
  split; [exact H|].
  destruct (applyBrandingToDOM_populated Branding.defaultBranding
              (Branding.mkDom true true []) H)
    as (sch & appName & tagline & favicon & _ & _ & _ & _ & _ & Heq).
  rewrite Heq. eauto.
Defined.

(** An update of the application name, on a storage with room and on a
    full one. *)
Lemma updateBranding_populated_completes_witness :
  Branding.is_BrandingConfig (Branding.branding Branding.fresh) = true
  ∧ Branding.is_PartialBranding Branding.rename_override = true
  ∧ (Branding.updateBranding_from MoreSamples.stringify_braces
       MoreSamples.roomy (Branding.branding Branding.fresh)
       Branding.rename_override Branding.fresh).2 = Normal
  ∧ (Branding.updateBranding_from MoreSamples.stringify_braces
       MoreSamples.full (Branding.branding Branding.fresh)
       Branding.rename_override Branding.fresh).2 = ThrowsQuotaExceeded.
Proof.
  assert (Branding.is_BrandingConfig (Branding.branding Branding.fresh)
          = true) as H1 by (vm_compute; reflexivity).
  assert (Branding.is_PartialBranding Branding.rename_override = true)
    as H2 by (vm_compute; reflexivity).
  split; [exact H1|]. split; [exact H2|]. split.
  - exact (proj1 (proj1 (proj2 (proj2
             (updateBranding_populated_completes
                MoreSamples.stringify_braces MoreSamples.roomy
                (Branding.branding Branding.fresh)
                Branding.rename_override Branding.fresh H1 H2)))
             eq_refl)).
  - exact (proj1 (proj2 (proj2 (proj2
             (updateBranding_populated_completes
                MoreSamples.stringify_braces MoreSamples.full
                (Branding.branding Branding.fresh)
                Branding.rename_override Branding.fresh H1 H2)))
             eq_refl)).
Defined.

(** One call on a storage with room, and the same call on a full one. *)
Lemma updates_storage_in_sync_witness :
  Branding.localStorage
    (Branding.invocations MoreSamples.stringify_braces MoreSamples.roomy
       [(None, Branding.rename_override)] Branding.fresh) !! "branding"
  = Some (MoreSamples.stringify_braces
            (VObj (Branding.branding
                     (Branding.invocations MoreSamples.stringify_braces
                        MoreSamples.roomy
                        [(None, Branding.rename_override)]
                        Branding.fresh))))
  ∧ Branding.localStorage
      (Branding.invocations MoreSamples.stringify_braces MoreSamples.full
         [(None, Branding.rename_override)] Branding.fresh)
    = Branding.localStorage Branding.fresh.
Proof.
  split.
  - exact (proj1 (updates_storage_in_sync MoreSamples.stringify_braces
                    MoreSamples.roomy [] (None, Branding.rename_override)
                    Branding.fresh) eq_refl).
  - exact (proj1 (proj2 (updates_storage_in_sync
                           MoreSamples.stringify_braces MoreSamples.full []
                           (None, Branding.rename_override)
                           Branding.fresh) eq_refl)).
Defined.

Lemma loadBranding_saved_override_witness :
  LoadBranding.m_storage (LoadBranding.mount MoreSamples.saved_storage)
    !! "branding" = Some (123%N :: [125%N])
  ∧ LoadBranding.m_isLoading
      (LoadBranding.loadBranding MoreSamples.parse_renamed
         LoadBranding.ServeNever
         (LoadBranding.mount MoreSamples.saved_storage)) = false.
Proof.
  assert (LoadBranding.m_storage
            (LoadBranding.mount MoreSamples.saved_storage) !! "branding"
          = Some (123%N :: [125%N])) as H by (vm_compute; reflexivity).
  split; [exact H|].
  exact (proj1 (proj2 (loadBranding_saved_override
                         MoreSamples.parse_renamed LoadBranding.ServeNever
                         (LoadBranding.mount MoreSamples.saved_storage)
                         123%N [125%N] H))).
Defined.


Lemma wizard_steps_linear_witness :
  SetupPage.edits (SetupPage.start ∅) [SetupPage.Next; SetupPage.Next]
  = Some (SetupPage.mkWizard 2 (SetupPage.initial_formData ∅))
  ∧ SetupPage.currentStep (SetupPage.start ∅) ≤ 3
  ∧ SetupPage.currentStep
      (SetupPage.mkWizard 2 (SetupPage.initial_formData ∅)) ≤ 3.
Proof.
  assert (SetupPage.edits (SetupPage.start ∅)
            [SetupPage.Next; SetupPage.Next]
          = Some (SetupPage.mkWizard 2 (SetupPage.initial_formData ∅)))
    as H1 by reflexivity.
  assert (SetupPage.currentStep (SetupPage.start ∅) ≤ 3) as H2
    by (simpl; lia).
  split; [exact H1|]. split; [exact H2|].
  exact (proj1 (wizard_steps_linear [SetupPage.Next; SetupPage.Next]
                  (SetupPage.start ∅)
                  (SetupPage.mkWizard 2 (SetupPage.initial_formData ∅))
                  H1 H2)).
Defined.

Lemma handleColorChange_sets_one_witness :
  get (SetupPage.initial_formData Branding.defaultBranding) "colors"
  = VObj (SetupPage.own_props (get Branding.defaultBranding "colors"))
  ∧ get (SetupPage.own_props (get Branding.defaultBranding "colors"))
      (SetupPage.theme_key SetupPage.dark)
    = VObj (SetupPage.own_props
              (get (SetupPage.own_props
                      (get Branding.defaultBranding "colors")) "dark"))
  ∧ ∃ d,
      SetupPage.handleColorChange SetupPage.dark "accent" (js "#ff0000")
        (SetupPage.initial_formData Branding.defaultBranding) = Some d
      ∧ SetupPage.color_at d SetupPage.dark "accent"
        = Some (VStr (js "#ff0000")).
Proof.
  assert (get (SetupPage.initial_formData Branding.defaultBranding) "colors"
          = VObj (SetupPage.own_props
                    (get Branding.defaultBranding "colors")))
    as H1 by (vm_compute; reflexivity).
  assert (get (SetupPage.own_props (get Branding.defaultBranding "colors"))
            (SetupPage.theme_key SetupPage.dark)
          = VObj (SetupPage.own_props
                    (get (SetupPage.own_props
                            (get Branding.defaultBranding "colors"))
                       "dark")))
    as H2 by (vm_compute; reflexivity).
  split; [exact H1|]. split; [exact H2|].
  destruct (handleColorChange_sets_one SetupPage.dark "accent"
              (js "#ff0000")
              (SetupPage.initial_formData Branding.defaultBranding)
              _ _ H1 H2) as (d & Hd & Hc & _).
  exists d. split; [exact Hd|exact Hc].
Defined.



(** A start-up on a configuration of the declared shape, and one on a
    file that holds [{}]. *)
Lemma routes_have_client_witness :
  App.render (App.run MoreSamples.good_start (App.initial ∅))
  = App.Routes (App.Typed Samples.config) false
  ∧ (∃ client,
       Gateway.getApiClient (App.run MoreSamples.good_start (App.initial ∅))
       = inr client
       ∧ Api.client_baseUrl client = baseUrl (api Samples.config)
       ∧ Api.client_timeout client = timeout (api Samples.config))
  ∧ App.render (App.run MoreSamples.empty_start (App.initial ∅))
    = App.Routes (App.Untyped None) false
  ∧ Gateway.getApiClient (App.run MoreSamples.empty_start (App.initial ∅))
    = inl Gateway.not_initialized.
Proof.
  assert (App.render (App.run MoreSamples.good_start (App.initial ∅))
          = App.Routes (App.Typed Samples.config) false) as H
    by (vm_compute; reflexivity).
  assert (App.render (App.run MoreSamples.empty_start (App.initial ∅))
          = App.Routes (App.Untyped None) false) as H'
    by (vm_compute; reflexivity).
  split; [exact H|]. split; [|split; [exact H'|]].
  - exact (proj1 (routes_have_client MoreSamples.good_start ∅
                    (App.Typed Samples.config) false H)
             (api Samples.config) eq_refl).
  - exact (proj2 (proj2 (routes_have_client MoreSamples.empty_start ∅
                           (App.Untyped None) false H') eq_refl)).
Defined.

Lemma getApiClient_before_load_witness :
  App.failed_loads MoreSamples.bad_start = true
  ∧ Gateway.getApiClient (App.run MoreSamples.bad_start (App.initial ∅))
    = inl Gateway.not_initialized.
Proof.
  assert (App.failed_loads MoreSamples.bad_start = true) as H
    by reflexivity.
  split; [exact H|].
  exact (getApiClient_before_load MoreSamples.bad_start ∅ H).
Defined.

Lemma request_returns_only_ok_witness :
  Api.request unit MoreSamples.ok_network MoreSamples.busy_loop []
            MoreSamples.client
    (js "/api/chat") Api.no_options = Api.Returns tt
  ∧ ∃ t response t',
      MoreSamples.ok_network
        (Api.request_url MoreSamples.client (js "/api/chat"))
        (Api.request_init Api.no_options) = Api.Settles t (inr response)
      ∧ (t < Api.timer_fires MoreSamples.busy_loop
               (Api.client_timeout MoreSamples.client))%N
      ∧ Api.ok unit response = true
      ∧ Api.json unit response = Api.Settles t' (inr tt).
Proof.
  assert (Api.request unit MoreSamples.ok_network MoreSamples.busy_loop []
            MoreSamples.client
            (js "/api/chat") Api.no_options = Api.Returns tt) as H
    by reflexivity.
  split; [exact H|].
  exact (request_returns_only_ok unit MoreSamples.ok_network
           MoreSamples.busy_loop []
           MoreSamples.client (js "/api/chat") Api.no_options tt H).
Defined.

Lemma request_pending_only_in_body_witness :
  Api.request unit MoreSamples.stalled_network MoreSamples.busy_loop []
            MoreSamples.client
    (js "/api/chat") Api.no_options = Api.Pending
  ∧ ∃ t response,
      MoreSamples.stalled_network
        (Api.request_url MoreSamples.client (js "/api/chat"))
        (Api.request_init Api.no_options) = Api.Settles t (inr response)
      ∧ (t < Api.timer_fires MoreSamples.busy_loop
               (Api.client_timeout MoreSamples.client))%N
      ∧ Api.ok unit response = true
      ∧ Api.json unit response = Api.Never.
Proof.
  assert (Api.request unit MoreSamples.stalled_network MoreSamples.busy_loop []
            MoreSamples.client
            (js "/api/chat") Api.no_options = Api.Pending) as H
    by reflexivity.
  split; [exact H|].
  exact (request_pending_only_in_body unit MoreSamples.stalled_network
           MoreSamples.busy_loop []
           MoreSamples.client (js "/api/chat") Api.no_options H).
Defined.

Lemma uploadDocument_has_no_timeout_witness :
  MoreSamples.silent_network
    (Api.request_url MoreSamples.client (js "/api/chat"))
    (Api.request_init Api.no_options) = Api.Never
  ∧ MoreSamples.silent_upload
      (Api.client_baseUrl MoreSamples.client
       ++ js "/api/documents/upload") Samples.small_txt = Api.Never
  ∧ Api.request unit MoreSamples.silent_network MoreSamples.busy_loop []
      MoreSamples.client (js "/api/chat") Api.no_options
    = Api.Throws Api.timeout_error
  ∧ Gateway.uploadDocument unit MoreSamples.silent_upload
      MoreSamples.client Samples.small_txt = Api.Pending.
Proof.
  split; [reflexivity|]. split; [reflexivity|].
  exact (uploadDocument_has_no_timeout unit MoreSamples.silent_network
           MoreSamples.busy_loop []
           MoreSamples.silent_upload MoreSamples.client (js "/api/chat")
           Api.no_options Samples.small_txt eq_refl eq_refl).
Defined.

Lemma sanitizeInput_plain_text_witness :
  Forall (λ c, c ∉ [code "<"; code ">"; code ":"; code "="])
    (js "Maria da Silva")
  ∧ sanitizeInput (js "Maria da Silva") = js "Maria da Silva".
Proof.
  assert (Forall (λ c, c ∉ [code "<"; code ">"; code ":"; code "="])
            (js "Maria da Silva")) as H.
  { apply (bool_decide_unpack _). vm_compute. exact I. }
  split; [exact H|].
  apply (sanitizeInput_plain_text (js "Maria da Silva") H).
  - intros c Hc. vm_compute in Hc. injection Hc as <-. reflexivity.
  - intros c Hc. vm_compute in Hc. injection Hc as <-. reflexivity.
Defined.

Lemma fileExtension_last_suffix_witness :
  (code "." ∉ js "GZ")
  ∧ fileExtension ascii_toLowerCase
      (mkFile (js "backup.tar" ++ code "." :: js "GZ") [] 1%Z)
    = code "." :: ascii_toLowerCase (js "GZ").
Proof.
  assert (code "." ∉ js "GZ") as H.
  { apply (bool_decide_eq_false_1 _). vm_compute. reflexivity. }
  split; [exact H|].
  exact (proj1 (fileExtension_last_suffix ascii_toLowerCase
                  (js "backup.tar") (js "GZ") [] 1%Z H)).
Defined.

Lemma validateFileType_matching_entry_witness :
  validateFileType ascii_toLowerCase Samples.small_txt
    (allowedTypes (fileUpload Samples.config)) = true
  ∧ ∃ t, t ∈ allowedTypes (fileUpload Samples.config)
         ∧ head t = Some (code ".")
         ∧ Forall (λ c, ¬ (65 ≤ c ≤ 90)%N) t.
Proof.
  assert (validateFileType ascii_toLowerCase Samples.small_txt
            (allowedTypes (fileUpload Samples.config)) = true) as H
    by (vm_compute; reflexivity).
  split; [exact H|].
  exact (validateFileType_matching_entry ascii_toLowerCase
           Samples.small_txt (allowedTypes (fileUpload Samples.config))
           ascii_toLowerCase_lower H).
Defined.

Lemma pipeline_non_interference_witness :
  Forall (λ s, SimulateUpload.step_id s ≠ js "d1")
    (SimulateUpload.simulateUpload (js "d2"))
  ∧ SimulateUpload.uploadProgress
      (SimulateUpload.run MoreSamples.panel
         (SimulateUpload.simulateUpload (js "d2"))) !! js "d1"
    = SimulateUpload.uploadProgress MoreSamples.panel !! js "d1".
Proof.
  assert (Forall (λ s, SimulateUpload.step_id s ≠ js "d1")
            (SimulateUpload.simulateUpload (js "d2"))) as H.
  { apply (bool_decide_unpack _). vm_compute. exact I. }
  split; [exact H|].
  exact (proj2 (pipeline_non_interference
                  (SimulateUpload.simulateUpload (js "d2"))
                  MoreSamples.panel (js "d1") H)).
Defined.

Lemma drop_then_upload_witness :
  validateFileType ascii_toLowerCase Samples.small_txt
    (allowedTypes (fileUpload Samples.config)) = true
  ∧ validateFileSize Samples.small_txt (maxSize (fileUpload Samples.config))
    = true
  ∧ DocumentUpload.onDrop ascii_toLowerCase Samples.whole_toString
      Samples.config Samples.ticks [] [Samples.small_txt]
    = ([] ++ [DocumentUpload.new_document Samples.small_txt
                (Samples.ticks 0)],
       [DocumentUpload.SimulateUpload
          (DocumentUpload.id
             (DocumentUpload.new_document Samples.small_txt
                (Samples.ticks 0)))
          Samples.small_txt]).
Proof.
  assert (validateFileType ascii_toLowerCase Samples.small_txt
            (allowedTypes (fileUpload Samples.config)) = true) as H1
    by (vm_compute; reflexivity).
  assert (validateFileSize Samples.small_txt
            (maxSize (fileUpload Samples.config)) = true) as H2
    by (vm_compute; reflexivity).
  split; [exact H1|]. split; [exact H2|].
  exact (proj1 (drop_then_upload ascii_toLowerCase Samples.whole_toString
                  Samples.config Samples.ticks [] Samples.small_txt ∅
                  H1 H2)).
Defined.

Lemma contractDocuments_after_upload_witness :
  MoreSamples.contract_pdf ∈ SimulateUpload.documents MoreSamples.panel
  ∧ ContractAnalysis.is_contract ascii_toLowerCase
      (SimulateUpload.with_status MoreSamples.contract_pdf
         DocumentUpload.ready (Some SimulateUpload.mockAnalysis)) = true
  ∧ SimulateUpload.with_status MoreSamples.contract_pdf
      DocumentUpload.ready (Some SimulateUpload.mockAnalysis)
    ∈ ContractAnalysis.contractDocuments ascii_toLowerCase
        (SimulateUpload.documents
           (SimulateUpload.run MoreSamples.panel
              (SimulateUpload.simulateUpload
                 (DocumentUpload.id MoreSamples.contract_pdf)))).
Proof.
  assert (MoreSamples.contract_pdf
          ∈ SimulateUpload.documents MoreSamples.panel) as H1
    by (right; left).
  assert (ContractAnalysis.is_contract ascii_toLowerCase
            (SimulateUpload.with_status MoreSamples.contract_pdf
               DocumentUpload.ready (Some SimulateUpload.mockAnalysis))
          = true) as H2 by (vm_compute; reflexivity).
  split; [exact H1|]. split; [exact H2|].
  exact (proj1 (proj2 (contractDocuments_after_upload ascii_toLowerCase
                         MoreSamples.panel MoreSamples.contract_pdf
                         H1 H2))).
Defined.

Lemma search_names_court_witness :
  trim (CaseSearch.caseNumber MoreSamples.typed_search) ≠ []
  ∧ CaseSearch.selectedCourt MoreSamples.typed_search ≠ []
  ∧ ∃ info,
      CaseSearch.caseInfo
        (CaseSearch.search (courts Samples.config) 0%Z
           MoreSamples.typed_search) = Some info
      ∧ CaseSearch.number info
        = CaseSearch.caseNumber MoreSamples.typed_search.
Proof.
  assert (trim (CaseSearch.caseNumber MoreSamples.typed_search) ≠ [])
    as H1 by (vm_compute; discriminate).
  assert (CaseSearch.selectedCourt MoreSamples.typed_search ≠ []) as H2
    by (vm_compute; discriminate).
  split; [exact H1|]. split; [exact H2|].
  destruct (search_names_court (courts Samples.config) 0%Z
              MoreSamples.typed_search H1 H2) as (info & Hi & Hn & _).
  exists info. split; [exact Hi|exact Hn].
Defined.
